(** * popple: a chat karma bot

    A shallow embedding of [cmd/popplebot/main.go] (the event-protocol
    publisher and consumer), of the legacy synchronous command handlers
    ([CheckKarma], [SetAnnounce], [ModKarma], [board], [marshalSubjects])
    and of the router exercised by [TestMux].

    Go strings are byte strings: they are embedded as [string], one [ascii]
    per byte.  Go's [int] is the 64-bit two's-complement integer of the
    platforms the bot is built for: it is embedded as [Z] with the
    wrap-around of [+=] written out.  Go maps are [gmap]s; the order in
    which [range] visits a map is not fixed by the language, so a loop
    over a map takes the visiting order as an argument, constrained to be
    an enumeration of the map. *)

From Stdlib Require Import ZArith String Ascii List Lia DecimalString.
From stdpp Require Import base gmap list strings sorting.

Local Open Scope Z_scope.
Local Open Scope string_scope.

(** ** Go's [int] *)

Module GoInt.

Definition min_int : Z := - 2 ^ 63.
Definition max_int : Z := 2 ^ 63 - 1.

Definition in_range (z : Z) : Prop := min_int <= z <= max_int.

(** Two's-complement reduction of a mathematical integer to an [int]. *)
Definition wrap (z : Z) : Z := (z + 2 ^ 63) mod 2 ^ 64 - 2 ^ 63.

(** [a + b] and [a += b] on [int]. *)
Definition add (a b : Z) : Z := wrap (a + b).

End GoInt.

(** ** The parts of Go's [strings], [strconv] and [fmt] the bot uses *)

Module GoStrings.

(** [len(s)]: the number of bytes. *)
Definition len (s : string) : nat := String.length s.

(** [strings.HasPrefix(s, prefix)]. *)
Definition HasPrefix (s prefix : string) : bool := String.prefix prefix s.

(** [s[n:]].  Slicing past the end of a string panics: [None]. *)
Fixpoint drop_bytes (n : nat) (s : string) : string :=
  match n, s with
  | O, _ => s
  | S n', String _ s' => drop_bytes n' s'
  | S _, EmptyString => EmptyString
  end.

Definition slice_from (n : nat) (s : string) : option string :=
  if (n <=? len s)%nat then Some (drop_bytes n s) else None.

(** [fmt.Sprintf("%d", z)]. *)
Definition fmt_d (z : Z) : string := NilZero.string_of_int (Z.to_int z).

(** A byte as a number. *)
Definition byte (c : ascii) : N := N_of_ascii c.

(** The width in bytes of the white-space character ([unicode.IsSpace])
    whose UTF-8 encoding starts [s], or [0] when [s] does not start with
    one: U+0009..U+000D and U+0020 (one byte), U+0085 and U+00A0 (two),
    U+1680, U+2000..U+200A, U+2028, U+2029, U+202F, U+205F and U+3000
    (three). *)
Definition space_width (s : string) : nat :=
  match s with
  | EmptyString => 0
  | String c s1 =>
      let b := byte c in
      if ((9 <=? b) && (b <=? 13) || (b =? 32))%N then 1
      else
        match s1 with
        | EmptyString => 0
        | String c1 s2 =>
            let b1 := byte c1 in
            if (b =? 0xC2)%N then
              if ((b1 =? 0x85) || (b1 =? 0xA0))%N then 2 else 0
            else
              match s2 with
              | EmptyString => 0
              | String c2 _ =>
                  let b2 := byte c2 in
                  if ((b =? 0xE1) && (b1 =? 0x9A) && (b2 =? 0x80))%N then 3
                  else if ((b =? 0xE2) && (b1 =? 0x80)
                           && ((0x80 <=? b2) && (b2 <=? 0x8A) || (b2 =? 0xA8)
                               || (b2 =? 0xA9) || (b2 =? 0xAF)))%N then 3
                  else if ((b =? 0xE2) && (b1 =? 0x81) && (b2 =? 0x9F))%N then 3
                  else if ((b =? 0xE3) && (b1 =? 0x80) && (b2 =? 0x80))%N then 3
                  else 0
              end
        end
  end%nat.

Definition flush (cur : string) (fields : list string) : list string :=
  match cur with
  | EmptyString => fields
  | _ => cur :: fields
  end.

(** [strings.Fields(s)]: the maximal runs of non-white-space bytes.
    [skip] counts the bytes of a white-space character still to pass,
    [cur] is the field read so far. *)
Fixpoint fields_go (s : string) (skip : nat) (cur : string) : list string :=
  match s with
  | EmptyString => flush cur []
  | String c s' =>
      match skip with
      | S k => fields_go s' k cur
      | O =>
          match space_width s with
          | O => fields_go s' O (cur +:+ String c EmptyString)
          | S k => flush cur (fields_go s' k EmptyString)
          end
      end
  end.

Definition Fields (s : string) : list string := fields_go s 0 EmptyString.

(** [strings.TrimSpace(s)]: leading, then trailing white space removed. *)
Fixpoint trim_left (s : string) (skip : nat) : string :=
  match s with
  | EmptyString => EmptyString
  | String _ s' =>
      match skip with
      | S k => trim_left s' k
      | O =>
          match space_width s with
          | O => s
          | S k => trim_left s' k
          end
      end
  end.

Fixpoint all_space (s : string) (skip : nat) : bool :=
  match s with
  | EmptyString => true
  | String _ s' =>
      match skip with
      | S k => all_space s' k
      | O =>
          match space_width s with
          | O => false
          | S k => all_space s' k
          end
      end
  end.

Fixpoint trim_right (s : string) (skip : nat) : string :=
  match s with
  | EmptyString => EmptyString
  | String c s' =>
      match skip with
      | S k => String c (trim_right s' k)
      | O =>
          if all_space s 0 then EmptyString
          else String c (trim_right s' (Nat.pred (space_width s)))
      end
  end.

Definition TrimSpace (s : string) : string := trim_right (trim_left s 0) 0.

(** [strconv.Atoi(s)]: an optional sign, then one or more decimal digits,
    the value within [int]; [None] stands for a non-nil error. *)
Definition digit (c : ascii) : option Z :=
  let b := byte c in
  if ((48 <=? b) && (b <=? 57))%N then Some (Z.of_N b - 48) else None.

Fixpoint digits_value (s : string) (acc : Z) : option Z :=
  match s with
  | EmptyString => Some acc
  | String c s' =>
      match digit c with
      | Some d => digits_value s' (10 * acc + d)
      | None => None
      end
  end.

Definition Atoi (s : string) : option Z :=
  let '(neg, ds) :=
    match s with
    | String c r =>
        if Ascii.eqb c "-" then (true, r)
        else if Ascii.eqb c "+" then (false, r)
        else (false, s)
    | EmptyString => (false, s)
    end in
  match ds with
  | EmptyString => None
  | _ =>
      match digits_value ds 0 with
      | None => None
      | Some n =>
          let v := if neg : bool then - n else n in
          if ((GoInt.min_int <=? v) && (v <=? GoInt.max_int))%Z then Some v else None
      end
  end.

End GoStrings.

(** ** Subjects and their merging ([marshalSubjects]) *)

(** [Subject] is declared next to [ParseSubjects]; [marshalSubjects] reads
    its two fields, a name and a signed [int] adjustment. *)
Record Subject := { Name : string; Karma : Z }.

(** The name a subject is filed under: [name[1:]] when
    [len(name) > 1 && name[0] == '@'], the name itself otherwise. *)
Definition resolve (name : string) : string :=
  match name with
  | String c rest =>
      if (1 <? GoStrings.len name)%nat && Ascii.eqb c "@" then rest else name
  | EmptyString => name
  end.

(** One iteration of the loop of [marshalSubjects]:
    [karma := subMap[name]; karma += s.Karma; subMap[name] = karma]. *)
Definition marshal_step (subMap : gmap string Z) (s : Subject) : gmap string Z :=
  let name := resolve (Name s) in
  let karma := default 0 (subMap !! name) in
  <[name := GoInt.add karma (Karma s)]> subMap.

Definition marshalSubjects (subs : list Subject) : gmap string Z :=
  foldl marshal_step ∅ subs.

(** The order in which a [range] loop may visit a map: any enumeration of
    its entries. *)
Definition range_order (m : gmap string Z) (order : list (string * Z)) : Prop :=
  order ≡ₚ map_to_list m.

(** The mathematical sum of the adjustments filed under [n]. *)
Definition net_sum (n : string) (subs : list Subject) : Z :=
  foldr (fun s acc => if decide (resolve (Name s) = n) then Karma s + acc else acc) 0 subs.

(** The names the subjects of a message are filed under, in the order of
    mention. *)
Definition resolved_names (subs : list Subject) : list string :=
  map (fun s => resolve (Name s)) subs.

(** ** The chat gateway (discordgo), as far as the bot drives it *)

Module Discord.

(** A [MessageCreate] event; [Content] holds what
    [ContentWithMentionsReplaced()] returns for it. *)
Module Message.
Record t := {
  ID : string;
  ChannelID : string;
  GuildID : string;
  AuthorID : string;
  Content : string
}.
End Message.

(** The calls made on the session, in the order they are made. *)
Inductive Call :=
| ChannelMessageSend (channelID content : string)
| ChannelMessageSendReply (channelID content : string)
| MessageReactionAdd (channelID messageID emoji : string).

End Discord.

(** ** The legacy synchronous handlers *)

Module Legacy.

Import Discord.

(** Rows of the two tables.  The store is used through point look-ups and
    writes on the unique key of each table: (GuildID, Name) for entities,
    GuildID for configurations.  The query engine itself is outside the
    embedding: a condition struct is read as the key it spells out, and a
    write always succeeds.  The engine drops an empty field from a
    condition struct, so the look-ups below are those of the code only
    for a non-empty guild ID and a non-empty name: every theorem that
    speaks of the rows a handler reads or writes assumes both. *)
Module Entity.
Record t := { GuildID : string; Name : string; Karma : Z }.
End Entity.

Module Config.
Record t := { GuildID : string; NoAnnounce : bool }.
End Config.

(** The writes the handlers issue to the store, in the order issued. *)
Inductive DbWrite :=
| CreateEntity (guildID name : string)
| SaveEntity (guildID name : string) (karma : Z)
| DeleteEntity (guildID name : string)
| CreateConfig (guildID : string)
| SaveConfig (guildID : string) (noAnnounce : bool).

Definition write_key (wr : DbWrite) : option (string * string) :=
  match wr with
  | CreateEntity g n | SaveEntity g n _ | DeleteEntity g n => Some (g, n)
  | CreateConfig _ | SaveConfig _ _ => None
  end.

(** What a handler runs against: the two tables ([ctx.DB]), the log of
    writes to them, and the calls made on the session. *)
Record World := {
  ents : gmap (string * string) Z;
  cfgs : gmap string bool;
  writes : list DbWrite;
  calls : list Call
}.

(** Handlers thread the world; [None] is a run-time panic. *)
Definition M (A : Type) : Type := World -> option (A * World).

Definition ret {A} (a : A) : M A := fun w => Some (a, w).

Definition bind {A B} (m : M A) (k : A -> M B) : M B :=
  fun w => match m w with Some (a, w') => k a w' | None => None end.

#[global] Instance M_ret : MRet M := @ret.
#[global] Instance M_bind : MBind M := fun A B k m => bind m k.

Fixpoint foldM {A S} (f : S -> A -> M S) (s : S) (l : list A) : M S :=
  match l with
  | [] => mret s
  | x :: l' => s' ← f s x; foldM f s' l'
  end.

Definition exec {A} (m : M A) (w : World) : option World :=
  match m w with Some (_, w') => Some w' | None => None end.

(** [db.Where(&Entity{GuildID: g, Name: n}).First(&entity)]: the row, or
    the zero value left in [entity] when there is none. *)
Definition FirstEntity (g n : string) : M Entity.t := fun w =>
  match ents w !! (g, n) with
  | Some k => Some ({| Entity.GuildID := g; Entity.Name := n; Entity.Karma := k |}, w)
  | None => Some ({| Entity.GuildID := ""; Entity.Name := ""; Entity.Karma := 0 |}, w)
  end.

(** [db.Where(&Entity{GuildID: g, Name: n}).FirstOrCreate(&entity)]. *)
Definition FirstOrCreateEntity (g n : string) : M Entity.t := fun w =>
  match ents w !! (g, n) with
  | Some k => Some ({| Entity.GuildID := g; Entity.Name := n; Entity.Karma := k |}, w)
  | None =>
      Some ({| Entity.GuildID := g; Entity.Name := n; Entity.Karma := 0 |},
            {| ents := <[(g, n) := 0]> (ents w); cfgs := cfgs w;
               writes := writes w ++ [CreateEntity g n]; calls := calls w |})
  end.

(** [db.Save(entity)] and [db.Delete(entity)]. *)
Definition SaveEntityRow (e : Entity.t) : M unit := fun w =>
  Some (tt, {| ents := <[(Entity.GuildID e, Entity.Name e) := Entity.Karma e]> (ents w);
               cfgs := cfgs w;
               writes := writes w ++ [SaveEntity (Entity.GuildID e) (Entity.Name e) (Entity.Karma e)];
               calls := calls w |}).

Definition DeleteEntityRow (e : Entity.t) : M unit := fun w =>
  Some (tt, {| ents := delete (Entity.GuildID e, Entity.Name e) (ents w);
               cfgs := cfgs w;
               writes := writes w ++ [DeleteEntity (Entity.GuildID e) (Entity.Name e)];
               calls := calls w |}).

(** [db.Where(&Config{GuildID: g}).FirstOrCreate(&cfg)] and [db.Save(cfg)]. *)
Definition FirstOrCreateConfig (g : string) : M Config.t := fun w =>
  match cfgs w !! g with
  | Some b => Some ({| Config.GuildID := g; Config.NoAnnounce := b |}, w)
  | None =>
      Some ({| Config.GuildID := g; Config.NoAnnounce := false |},
            {| ents := ents w; cfgs := <[g := false]> (cfgs w);
               writes := writes w ++ [CreateConfig g]; calls := calls w |})
  end.

Definition SaveConfigRow (c : Config.t) : M unit := fun w =>
  Some (tt, {| ents := ents w;
               cfgs := <[Config.GuildID c := Config.NoAnnounce c]> (cfgs w);
               writes := writes w ++ [SaveConfig (Config.GuildID c) (Config.NoAnnounce c)];
               calls := calls w |}).

(** A call on the session.  A failed call is logged and nothing else. *)
Definition call (c : Call) : M unit := fun w =>
  Some (tt, {| ents := ents w; cfgs := cfgs w; writes := writes w;
               calls := calls w ++ [c] |}).

(** [Context]: the message of the job and the header the router matched. *)
Record Context := { Job : Message.t; Header : string }.

(** [m.ContentWithMentionsReplaced()[len(ctx.Header):]]. *)
Definition after_header (ctx : Context) : M string := fun w =>
  match GoStrings.slice_from (GoStrings.len (Header ctx)) (Message.Content (Job ctx)) with
  | Some message => Some (message, w)
  | None => None
  end.

(** [fmt.Sprintf("%s%s has %d karma.", sep, name, karma)]. *)
Definition karma_line (sep name : string) (karma : Z) : string :=
  sep +:+ name +:+ " has " +:+ GoStrings.fmt_d karma +:+ " karma.".

Definition dquote : string := String (ascii_of_nat 34) EmptyString.

Definition announce_usage : string :=
  "Announce settings are: " +:+ dquote +:+ "yes" +:+ dquote +:+ ", "
  +:+ dquote +:+ "no" +:+ dquote +:+ ", " +:+ dquote +:+ "on" +:+ dquote
  +:+ ", " +:+ dquote +:+ "off" +:+ dquote.

Section Handlers.

(** [ParseSubjects] and the ranked query of [board] live outside the
    handlers' file.  [range] is the order in which a [range] loop visits
    the map it is given. *)
Variable ParseSubjects : string -> list Subject.
Variable Find : gmap (string * string) Z -> string -> string -> Z -> list Entity.t.
Variable range : gmap string Z -> list (string * Z).

(** The body of the loop of [CheckKarma]; the state is [(reply, sep)]. *)
Definition CheckKarma_body (guildID : string) (st : string * string)
    (kv : string * Z) : M (string * string) :=
  let '(reply, sep) := st in
  let '(subject, _) := kv in
  entity ← FirstEntity guildID subject;
  mret (reply +:+ karma_line sep subject (Entity.Karma entity), " ").

Definition CheckKarma (ctx : Context) : M unit :=
  let m := Job ctx in
  let guildID := Message.GuildID m in
  message ← after_header ctx;
  let subjects := marshalSubjects (ParseSubjects message) in
  st ← foldM (CheckKarma_body guildID) ("", "") (range subjects);
  call (ChannelMessageSend (Message.ChannelID m) (fst st)).

(** The chain of prefix tests of [SetAnnounce]: the setting asked for, or
    [None] when the message names none. *)
Definition announce_setting (message : string) : option bool :=
  if GoStrings.HasPrefix message "on" || GoStrings.HasPrefix message "yes" then Some true
  else if GoStrings.HasPrefix message "off" || GoStrings.HasPrefix message "no" then Some false
  else None.

Definition SetAnnounce (ctx : Context) : M unit :=
  let m := Job ctx in
  let guildID := Message.GuildID m in
  message ← after_header ctx;
  match announce_setting message with
  | None => call (ChannelMessageSendReply (Message.ChannelID m) announce_usage)
  | Some on =>
      cfg ← FirstOrCreateConfig guildID;
      SaveConfigRow {| Config.GuildID := Config.GuildID cfg;
                       Config.NoAnnounce := negb on |};;
      call (MessageReactionAdd (Message.ChannelID m) (Message.ID m) "👍")
  end.

(** The body of the loop of [ModKarma]; the state is [(reply, sep)]. *)
Definition ModKarma_body (guildID : string) (st : string * string)
    (kv : string * Z) : M (string * string) :=
  let '(reply, sep) := st in
  let '(subject, netKarma) := kv in
  if (netKarma =? 0)%Z then mret (reply, sep)
  else
    entity ← FirstOrCreateEntity guildID subject;
    let entity := {| Entity.GuildID := Entity.GuildID entity;
                     Entity.Name := Entity.Name entity;
                     Entity.Karma := GoInt.add (Entity.Karma entity) netKarma |} in
    let reply := reply +:+ karma_line sep (Entity.Name entity) (Entity.Karma entity) in
    (if (Entity.Karma entity =? 0)%Z then DeleteEntityRow entity else SaveEntityRow entity);;
    mret (reply, " ").

Definition ModKarma (ctx : Context) : M unit :=
  let m := Job ctx in
  let guildID := Message.GuildID m in
  let message := Message.Content m in
  let modifiers := marshalSubjects (ParseSubjects message) in
  st ← foldM (ModKarma_body guildID) ("", "") (range modifiers);
  if (GoStrings.len (fst st) =? 0)%nat then mret tt
  else
    cfg ← FirstOrCreateConfig guildID;
    if negb (Config.NoAnnounce cfg)
    then call (ChannelMessageSend (Message.ChannelID m) (fst st))
    else mret tt.

(** Lines 617-626 of [board]: the limit of the query. *)
Definition board_limit (message : string) : Z :=
  let limit := 10 in
  match GoStrings.Fields message with
  | [] => limit
  | part0 :: _ =>
      match GoStrings.Atoi part0 with
      | Some limitArg => if (0 <? limitArg)%Z then limitArg else limit
      | None => limit
      end
  end.

Definition board_line (e : Entity.t) : string :=
  "* " +:+ Entity.Name e +:+ " (" +:+ GoStrings.fmt_d (Entity.Karma e)
  +:+ " karma)" +:+ String (ascii_of_nat 10) EmptyString.

(** [db.Where(&Entity{GuildID: g}).Order("karma " + sort).Limit(limit).Find(&entities)]. *)
Definition FindRows (g sort : string) (limit : Z) : M (list Entity.t) :=
  fun w => Some (Find (ents w) g sort limit, w).

Definition board (ctx : Context) (sort : string) : M unit :=
  let m := Job ctx in
  message ← after_header ctx;
  let limit := board_limit message in
  entities ← FindRows (Message.GuildID m) sort limit;
  call (ChannelMessageSend (Message.ChannelID m)
          (foldl (fun b e => b +:+ board_line e) "" entities)).

Definition Bot (ctx : Context) : M unit := board ctx "asc".
Definition Top (ctx : Context) : M unit := board ctx "desc".

End Handlers.

(** *** What the handlers are specified against *)

(** A [range] that visits every entry of the map exactly once. *)
Definition fair (range : gmap string Z -> list (string * Z)) : Prop :=
  forall m, range_order m (range m).

(** A parser that yields [subs] for the message at hand. *)
Definition parsed (subs : list Subject) : string -> list Subject := fun _ => subs.

(** The zero-balance invariant of the ledger: no stored entry is zero. *)
Definition ledger_inv (e : gmap (string * string) Z) : Prop :=
  forall k v, e !! k = Some v -> v <> 0.

(** The entry of a name after its net adjustment [d]: untouched when [d]
    is zero, gone when the sum is zero, the sum otherwise. *)
Definition bump_value (d : Z) (old : option Z) : option Z :=
  if (d =? 0)%Z then old
  else
    let v := GoInt.add (default 0 old) d in
    if (v =? 0)%Z then None else Some v.

Definition apply_deltas (g : string) (order : list (string * Z))
    (e : gmap (string * string) Z) : gmap (string * string) Z :=
  foldl (fun e kv => partial_alter (bump_value (snd kv)) (g, fst kv) e) e order.

(** The (name, resulting karma) pairs of the subjects mutated, in the
    order visited. *)
Fixpoint mutations (g : string) (order : list (string * Z))
    (e : gmap (string * string) Z) : list (string * Z) :=
  match order with
  | [] => []
  | (n, d) :: rest =>
      let e' := partial_alter (bump_value d) (g, n) e in
      if (d =? 0)%Z then mutations g rest e'
      else (n, GoInt.add (default 0 (e !! (g, n))) d) :: mutations g rest e'
  end.

(** The writes the loop of [ModKarma] issues. *)
Fixpoint ledger_writes (g : string) (order : list (string * Z))
    (e : gmap (string * string) Z) : list DbWrite :=
  match order with
  | [] => []
  | (n, d) :: rest =>
      let e' := partial_alter (bump_value d) (g, n) e in
      if (d =? 0)%Z then ledger_writes g rest e'
      else
        let v := GoInt.add (default 0 (e !! (g, n))) d in
        match e !! (g, n) with Some _ => [] | None => [CreateEntity g n] end
        ++ (if (v =? 0)%Z then DeleteEntity g n else SaveEntity g n v)
        :: ledger_writes g rest e'
  end.

(** The reply built from (name, karma) pairs: one [karma_line] each, the
    separator empty before the first and a space before the others. *)
Fixpoint render_lines (sep : string) (lines : list (string * Z)) : string :=
  match lines with
  | [] => ""
  | (n, k) :: rest => karma_line sep n k +:+ render_lines " " rest
  end.

(** The (name, karma) pairs [CheckKarma] reports. *)
Definition lookups (g : string) (order : list (string * Z))
    (e : gmap (string * string) Z) : list (string * Z) :=
  map (fun kv => (fst kv, default 0 (e !! (g, fst kv)))) order.

End Legacy.

(** ** Package [popple]: the router and the argument parsers *)

Module popple.

(** The five handler types [Route] answers with, and the two argument
    errors of package [errors]; the publisher switches on the former and
    tests for the latter. *)
Inductive Kind :=
| AnnounceHandler
| BumpKarmaHandler
| KarmaHandler
| LeaderboardHandler
| LoserboardHandler.

Inductive Err := ErrMissingArgument | ErrInvalidArgument.

#[global] Instance Kind_eq_dec : EqDecision Kind.
Proof. solve_decision. Defined.

#[global] Instance Err_eq_dec : EqDecision Err.
Proof. solve_decision. Defined.

(** Modelled from the spec: the keywords of [Mux.Route] and the kind
    each routes to.  The file of [Mux] is not among the sources; only its
    test [TestMux] and its caller are. *)
Definition keywords : list (string * Kind) :=
  [("announce", AnnounceHandler); ("karma", KarmaHandler);
   ("top", LeaderboardHandler); ("bot", LoserboardHandler)].

(** Modelled from the spec: the inspection of the text for a leading
    keyword in [Mux.Route]; a keyword route returns what trails the
    keyword, leading space included. *)
Fixpoint match_keyword (kws : list (string * Kind)) (rest : string)
    : option (Kind * string) :=
  match kws with
  | [] => None
  | (kw, kind) :: kws' =>
      if GoStrings.HasPrefix rest kw
      then Some (kind, GoStrings.drop_bytes (GoStrings.len kw) rest)
      else match_keyword kws' rest
  end.

(** Modelled from the spec: the single space (or none) that may separate
    the prefix from the keyword in [Mux.Route]. *)
Definition after_space (rest : string) : string :=
  match rest with
  | String c r => if Ascii.eqb c " " then r else rest
  | EmptyString => rest
  end.

(** Modelled from the spec: [Mux.Route].  A text that does not begin with
    the prefix is the body of a BumpKarma.  Otherwise the prefix is
    removed (exact length, case-sensitive) and the rest is inspected for a
    leading keyword; any other or absent keyword routes to BumpKarma with
    the prefix-stripped text, leading space included, as its body. *)
Definition Route (prefix text : string) : Kind * string :=
  if GoStrings.HasPrefix text prefix then
    let rest := GoStrings.drop_bytes (GoStrings.len prefix) text in
    let cmd := after_space rest in
    match match_keyword keywords cmd with
    | Some route => route
    | None => (BumpKarmaHandler, rest)
    end
  else (BumpKarmaHandler, text).

(** Modelled from the spec: [ParseLeaderboardArgs] and
    [ParseLoserboardArgs], not among the sources.  The optional first
    white-space-delimited token is parsed as an integer; absent, the limit
    is the default 10; present but not a positive non-zero integer, the
    parse fails with the invalid-argument error. *)
Definition ParseLeaderboardArgs (body : string) : Z * option Err :=
  match GoStrings.Fields body with
  | [] => (10, None)
  | tok :: _ =>
      match GoStrings.Atoi tok with
      | Some n => if (0 <? n)%Z then (n, None) else (0, Some ErrInvalidArgument)
      | None => (0, Some ErrInvalidArgument)
      end
  end.

Definition ParseLoserboardArgs (body : string) : Z * option Err :=
  ParseLeaderboardArgs body.

(** Modelled from the spec: [ParseKarmaArgs], not among the sources.  The
    body is split on white space into names, each resolved as subjects
    are; an empty body, where a name is required, is the missing-argument
    error. *)
Definition ParseKarmaArgs (body : string) : list string * option Err :=
  match GoStrings.Fields body with
  | [] => ([], Some ErrMissingArgument)
  | names => (map resolve names, None)
  end.

End popple.

(** ** Package [event]: the envelope and its request and response shapes

    Modelled from the spec: the package is not among the sources; the
    fields are those the publisher fills and the consumer reads. *)

Module event.

Module ReactTo.
Record t := { ChannelID : string; MessageID : string }.
End ReactTo.

Module ReplyTo.
Record t := { ChannelID : string }.
End ReplyTo.

Module Entry.
Record t := { Name : string; Karma : Z }.
End Entry.

Module RequestChangeAnnounce.
Record t := { ReactTo : ReactTo.t; ServerID : string; NoAnnounce : bool }.
End RequestChangeAnnounce.

Module RequestBumpKarma.
Record t := { ReplyTo : ReplyTo.t; ServerID : string; Who : list Subject }.
End RequestBumpKarma.

Module RequestCheckKarma.
Record t := { ReplyTo : ReplyTo.t; ServerID : string; Who : list string }.
End RequestCheckKarma.

Module RequestCheckLeaderboard.
Record t := { ReplyTo : ReplyTo.t; ServerID : string; Limit : Z }.
End RequestCheckLeaderboard.

Module RequestCheckLoserboard.
Record t := { ReplyTo : ReplyTo.t; ServerID : string; Limit : Z }.
End RequestCheckLoserboard.

Module CheckedKarma.
Record t := { ReplyTo : ReplyTo.t; Who : gmap string Z }.
End CheckedKarma.

Module CheckedLeaderboard.
Record t := { ReplyTo : ReplyTo.t; Board : list Entry.t }.
End CheckedLeaderboard.

Module CheckedLoserboard.
Record t := { ReplyTo : ReplyTo.t; Board : list Entry.t }.
End CheckedLoserboard.

Module ChangedAnnounce.
Record t := { ReactTo : ReactTo.t }.
End ChangedAnnounce.

Module ChangedKarma.
Record t := { ReplyTo : ReplyTo.t; Announce : bool; Who : gmap string Z }.
End ChangedKarma.

(** The envelope: one pointer field per shape, [None] for nil. *)
Record Event := {
  RequestChangeAnnounce : option RequestChangeAnnounce.t;
  RequestBumpKarma : option RequestBumpKarma.t;
  RequestCheckKarma : option RequestCheckKarma.t;
  RequestCheckLeaderboard : option RequestCheckLeaderboard.t;
  RequestCheckLoserboard : option RequestCheckLoserboard.t;
  CheckedKarma : option CheckedKarma.t;
  CheckedLeaderboard : option CheckedLeaderboard.t;
  CheckedLoserboard : option CheckedLoserboard.t;
  ChangedAnnounce : option ChangedAnnounce.t;
  ChangedKarma : option ChangedKarma.t
}.

(** [Event{}]: every field nil. *)
Definition empty : Event :=
  {| RequestChangeAnnounce := None; RequestBumpKarma := None;
     RequestCheckKarma := None; RequestCheckLeaderboard := None;
     RequestCheckLoserboard := None; CheckedKarma := None;
     CheckedLeaderboard := None; CheckedLoserboard := None;
     ChangedAnnounce := None; ChangedKarma := None |}.

Definition count {A} (o : option A) : nat :=
  match o with Some _ => 1%nat | None => 0%nat end.

(** The number of populated fields of an envelope. *)
Definition populated (e : Event) : nat :=
  (count (RequestChangeAnnounce e) + count (RequestBumpKarma e)
   + count (RequestCheckKarma e) + count (RequestCheckLeaderboard e)
   + count (RequestCheckLoserboard e) + count (CheckedKarma e)
   + count (CheckedLeaderboard e) + count (CheckedLoserboard e)
   + count (ChangedAnnounce e) + count (ChangedKarma e))%nat.

End event.

(** ** [cmd/popplebot]: the publisher and the consumer *)

Module Bot.

Import Discord popple.

(** What handling one chat message produces: calls on the session and
    envelopes published to the request queue.  Encoding an envelope of
    these shapes as JSON cannot fail; a failed publish is logged and
    nothing else. *)
Record Out := { calls : list Call; published : list event.Event }.

Definition nothing : Out := {| calls := []; published := [] |}.

Definition publish (e : event.Event) : Out := {| calls := []; published := [e] |}.

Definition seq (a b : Out) : Out :=
  {| calls := calls a ++ calls b; published := published a ++ published b |}.

Definition question_mark : string := "❓".
Definition check_mark : string := "✅".

Definition dquote : string := String (ascii_of_nat 34) EmptyString.

Definition announce_usage : string :=
  "Valid announce settings are: " +:+ dquote +:+ "on" +:+ dquote +:+ ", "
  +:+ dquote +:+ "off" +:+ dquote +:+ ", " +:+ dquote +:+ "yes" +:+ dquote
  +:+ ", " +:+ dquote +:+ "no" +:+ dquote.

Definition limit_usage : string :=
  "The number of entries to list must be a positive non-zero integer".

Definition replyTo (m : Message.t) : event.ReplyTo.t :=
  {| event.ReplyTo.ChannelID := Message.ChannelID m |}.

Definition reactTo (m : Message.t) : event.ReactTo.t :=
  {| event.ReactTo.ChannelID := Message.ChannelID m;
     event.ReactTo.MessageID := Message.ID m |}.

(** The envelopes the publisher builds: one field set in [Event{}]. *)
Definition request_changeannounce (m : Message.t) (on : bool) : event.Event :=
  {| event.RequestChangeAnnounce :=
       Some {| event.RequestChangeAnnounce.ReactTo := reactTo m;
               event.RequestChangeAnnounce.ServerID := Message.GuildID m;
               event.RequestChangeAnnounce.NoAnnounce := negb on |};
     event.RequestBumpKarma := None; event.RequestCheckKarma := None;
     event.RequestCheckLeaderboard := None; event.RequestCheckLoserboard := None;
     event.CheckedKarma := None; event.CheckedLeaderboard := None;
     event.CheckedLoserboard := None; event.ChangedAnnounce := None;
     event.ChangedKarma := None |}.

Definition request_bumpkarma (m : Message.t) (increments : list Subject) : event.Event :=
  {| event.RequestChangeAnnounce := None;
     event.RequestBumpKarma :=
       Some {| event.RequestBumpKarma.ReplyTo := replyTo m;
               event.RequestBumpKarma.ServerID := Message.GuildID m;
               event.RequestBumpKarma.Who := increments |};
     event.RequestCheckKarma := None;
     event.RequestCheckLeaderboard := None; event.RequestCheckLoserboard := None;
     event.CheckedKarma := None; event.CheckedLeaderboard := None;
     event.CheckedLoserboard := None; event.ChangedAnnounce := None;
     event.ChangedKarma := None |}.

Definition request_checkkarma (m : Message.t) (who : list string) : event.Event :=
  {| event.RequestChangeAnnounce := None; event.RequestBumpKarma := None;
     event.RequestCheckKarma :=
       Some {| event.RequestCheckKarma.ReplyTo := replyTo m;
               event.RequestCheckKarma.ServerID := Message.GuildID m;
               event.RequestCheckKarma.Who := who |};
     event.RequestCheckLeaderboard := None; event.RequestCheckLoserboard := None;
     event.CheckedKarma := None; event.CheckedLeaderboard := None;
     event.CheckedLoserboard := None; event.ChangedAnnounce := None;
     event.ChangedKarma := None |}.

Definition request_checkleaderboard (m : Message.t) (limit : Z) : event.Event :=
  {| event.RequestChangeAnnounce := None; event.RequestBumpKarma := None;
     event.RequestCheckKarma := None;
     event.RequestCheckLeaderboard :=
       Some {| event.RequestCheckLeaderboard.ReplyTo := replyTo m;
               event.RequestCheckLeaderboard.ServerID := Message.GuildID m;
               event.RequestCheckLeaderboard.Limit := limit |};
     event.RequestCheckLoserboard := None;
     event.CheckedKarma := None; event.CheckedLeaderboard := None;
     event.CheckedLoserboard := None; event.ChangedAnnounce := None;
     event.ChangedKarma := None |}.

Definition request_checkloserboard (m : Message.t) (limit : Z) : event.Event :=
  {| event.RequestChangeAnnounce := None; event.RequestBumpKarma := None;
     event.RequestCheckKarma := None; event.RequestCheckLeaderboard := None;
     event.RequestCheckLoserboard :=
       Some {| event.RequestCheckLoserboard.ReplyTo := replyTo m;
               event.RequestCheckLoserboard.ServerID := Message.GuildID m;
               event.RequestCheckLoserboard.Limit := limit |};
     event.CheckedKarma := None; event.CheckedLeaderboard := None;
     event.CheckedLoserboard := None; event.ChangedAnnounce := None;
     event.ChangedKarma := None |}.

(** [errors.Is(err, target)]. *)
Definition errors_Is (err : option Err) (target : Err) : bool :=
  bool_decide (err = Some target).

Section Publisher.

(** Package [popple] as the publisher uses it: the router of a mux built
    for a prefix, and the five argument parsers, each returning a value
    and an error ([None] for nil). *)
Variable Route : string -> string -> Kind * string.
Variable ParseAnnounceArgs : string -> bool * option Err.
Variable ParseBumpKarmaArgs : string -> list Subject * option Err.
Variable ParseKarmaArgs : string -> list string * option Err.
Variable ParseLeaderboardArgs : string -> Z * option Err.
Variable ParseLoserboardArgs : string -> Z * option Err.

(** [case popple.AnnounceHandler]. *)
Definition onAnnounce (m : Message.t) (body : string) : Out :=
  let '(on, err) := ParseAnnounceArgs body in
  if errors_Is err ErrMissingArgument || errors_Is err ErrInvalidArgument then
    {| calls := [MessageReactionAdd (Message.ChannelID m) (Message.ID m) question_mark;
                 ChannelMessageSend (Message.ChannelID m) announce_usage];
       published := [] |}
  else publish (request_changeannounce m on).

(** [case popple.BumpKarmaHandler]: the error of the parser is dropped. *)
Definition onBumpKarma (m : Message.t) (body : string) : Out :=
  let '(increments, _) := ParseBumpKarmaArgs body in
  publish (request_bumpkarma m increments).

(** [case popple.KarmaHandler].  [reactErr] tells whether the call that
    adds the reaction returns an error. *)
Definition onKarma (reactErr : bool) (m : Message.t) (body : string) : Out :=
  let '(who, err) := ParseKarmaArgs body in
  match err with
  | Some _ =>
      let react :=
        {| calls := [MessageReactionAdd (Message.ChannelID m) (Message.ID m) question_mark];
           published := [] |} in
      if reactErr then react
      else seq react (publish (request_checkkarma m who))
  | None => publish (request_checkkarma m who)
  end.

(** [case popple.LeaderboardHandler] and [case popple.LoserboardHandler]. *)
Definition onLeaderboard (m : Message.t) (body : string) : Out :=
  let '(limit, err) := ParseLeaderboardArgs body in
  if errors_Is err ErrInvalidArgument then
    {| calls := [ChannelMessageSend (Message.ChannelID m) limit_usage];
       published := [] |}
  else publish (request_checkleaderboard m limit).

Definition onLoserboard (m : Message.t) (body : string) : Out :=
  let '(limit, err) := ParseLoserboardArgs body in
  if errors_Is err ErrInvalidArgument then
    {| calls := [ChannelMessageSend (Message.ChannelID m) limit_usage];
       published := [] |}
  else publish (request_checkloserboard m limit).

(** The handler [publisher] registers for [MessageCreate]; [selfID] and
    [username] are [s.State.User.ID] and [session.State.User.Username]. *)
Definition onMessageCreate (selfID username : string) (reactErr : bool)
    (m : Message.t) : Out :=
  if String.eqb selfID (Message.AuthorID m) then nothing
  else if (GoStrings.len (Message.GuildID m) =? 0)%nat then nothing
  else
    let message := GoStrings.TrimSpace (Message.Content m) in
    let '(action, body) := Route ("@" +:+ username) message in
    match action with
    | AnnounceHandler => onAnnounce m body
    | BumpKarmaHandler => onBumpKarma m body
    | KarmaHandler => onKarma reactErr m body
    | LeaderboardHandler => onLeaderboard m body
    | LoserboardHandler => onLoserboard m body
    end.

End Publisher.

(** [templateLevels]: [range] over a map visits the keys in sorted order. *)
Definition by_name (a b : string * Z) : Prop := String.le (fst a) (fst b).

#[global] Instance by_name_dec : RelDecision by_name.
Proof. intros a b. unfold by_name. apply _. Defined.

Definition templateLevels (who : gmap string Z) : string :=
  foldl (fun r kv => r +:+ fst kv +:+ " has " +:+ GoStrings.fmt_d (snd kv) +:+ " karma. ")
        "" (merge_sort by_name (map_to_list who)).

Definition templateBoard (board : list event.Entry.t) : string :=
  foldl (fun r entry => r +:+ "* " +:+ event.Entry.Name entry +:+ " has "
                          +:+ GoStrings.fmt_d (event.Entry.Karma entry)
                          +:+ " karma." +:+ String (ascii_of_nat 10) EmptyString)
        "" board.

(** What the consumer does with one decoded envelope: the case of the
    [switch] that ran, with the calls it made on the session, or the
    [default] case, which discards the envelope. *)
Inductive Case :=
| CaseCheckedKarma
| CaseCheckedLeaderboard
| CaseCheckedLoserboard
| CaseChangedAnnounce
| CaseChangedKarma.

Inductive Outcome :=
| Processed (c : Case) (calls : list Call)
| Discarded.

Definition handle (actual : event.Event) : Outcome :=
  match event.CheckedKarma actual with
  | Some rsp =>
      Processed CaseCheckedKarma
        [ChannelMessageSend (event.ReplyTo.ChannelID (event.CheckedKarma.ReplyTo rsp))
           (templateLevels (event.CheckedKarma.Who rsp))]
  | None =>
  match event.CheckedLeaderboard actual with
  | Some rsp =>
      Processed CaseCheckedLeaderboard
        [ChannelMessageSend (event.ReplyTo.ChannelID (event.CheckedLeaderboard.ReplyTo rsp))
           (templateBoard (event.CheckedLeaderboard.Board rsp))]
  | None =>
  match event.CheckedLoserboard actual with
  | Some rsp =>
      Processed CaseCheckedLoserboard
        [ChannelMessageSend (event.ReplyTo.ChannelID (event.CheckedLoserboard.ReplyTo rsp))
           (templateBoard (event.CheckedLoserboard.Board rsp))]
  | None =>
  match event.ChangedAnnounce actual with
  | Some rsp =>
      Processed CaseChangedAnnounce
        [MessageReactionAdd (event.ReactTo.ChannelID (event.ChangedAnnounce.ReactTo rsp))
           (event.ReactTo.MessageID (event.ChangedAnnounce.ReactTo rsp)) check_mark]
  | None =>
  match event.ChangedKarma actual with
  | Some rsp =>
      if negb (event.ChangedKarma.Announce rsp) then Processed CaseChangedKarma []
      else
        Processed CaseChangedKarma
          [ChannelMessageSend (event.ReplyTo.ChannelID (event.ChangedKarma.ReplyTo rsp))
             (templateLevels (event.ChangedKarma.Who rsp))]
  | None => Discarded
  end end end end end.

Definition outcome_calls (o : Outcome) : list Call :=
  match o with
  | Processed _ cs => cs
  | Discarded => []
  end.

(** The loop of [consumer] over the deliveries received before the
    channel closes; a delivery that fails to decode is [None] and is
    skipped. *)
Definition consumer (events : list (option event.Event)) : list Call :=
  flat_map (fun evt => match evt with
                       | Some actual => outcome_calls (handle actual)
                       | None => []
                       end) events.

End Bot.

(** ** Concrete messages, worlds and envelopes for the examples *)

Module Fixtures.

Definition msg (content : string) : Discord.Message.t :=
  {| Discord.Message.ID := "m1"; Discord.Message.ChannelID := "c1";
     Discord.Message.GuildID := "g1"; Discord.Message.AuthorID := "u1";
     Discord.Message.Content := content |}.

Definition ctx (header content : string) : Legacy.Context :=
  {| Legacy.Job := msg content; Legacy.Header := header |}.

Definition world (ents : list (string * string * Z)) (cfgs : list (string * bool))
    : Legacy.World :=
  {| Legacy.ents := list_to_map ents; Legacy.cfgs := list_to_map cfgs;
     Legacy.writes := []; Legacy.calls := [] |}.

Definition alice (k : Z) : Subject := {| Name := "alice"; Karma := k |}.

(** An envelope with two response fields set. *)
Definition two_fields : event.Event :=
  {| event.RequestChangeAnnounce := None; event.RequestBumpKarma := None;
     event.RequestCheckKarma := None; event.RequestCheckLeaderboard := None;
     event.RequestCheckLoserboard := None;
     event.CheckedKarma :=
       Some {| event.CheckedKarma.ReplyTo := {| event.ReplyTo.ChannelID := "c1" |};
               event.CheckedKarma.Who := {["alice" := 3]} |};
     event.CheckedLeaderboard :=
       Some {| event.CheckedLeaderboard.ReplyTo := {| event.ReplyTo.ChannelID := "c2" |};
               event.CheckedLeaderboard.Board := [] |};
     event.CheckedLoserboard := None; event.ChangedAnnounce := None;
     event.ChangedKarma := None |}.

End Fixtures.

(** * Properties *)

(** ** Arithmetic of [int] *)

Module GoIntFacts.

Import GoInt.

Lemma wrap_in_range z : in_range (wrap z).
Proof.
  unfold in_range, wrap, min_int, max_int.
  pose proof (Z.mod_pos_bound (z + 2 ^ 63) (2 ^ 64) ltac:(lia)). lia.
Qed.

Lemma wrap_id z : in_range z -> wrap z = z.
Proof.
  unfold in_range, wrap, min_int, max_int. intros H.
  rewrite Z.mod_small by lia. lia.
Qed.

Lemma wrap_add_l a b : wrap (wrap a + b) = wrap (a + b).
Proof.
  unfold wrap.
  replace ((a + 2 ^ 63) mod 2 ^ 64 - 2 ^ 63 + b + 2 ^ 63)
    with ((a + 2 ^ 63) mod 2 ^ 64 + b) by lia.
  replace (a + b + 2 ^ 63) with ((a + 2 ^ 63) + b) by lia.
  by rewrite Zplus_mod_idemp_l.
Qed.

Lemma add_0_l a : in_range a -> add 0 a = a.
Proof. intros H. unfold add. by rewrite Z.add_0_l, wrap_id. Qed.

Lemma add_in_range a b : in_range (add a b).
Proof. apply wrap_in_range. Qed.

Lemma add_small a b : in_range (a + b) -> add a b = a + b.
Proof. apply wrap_id. Qed.

End GoIntFacts.

(** ** Strings *)

Module GoStringsFacts.

Import GoStrings.

Lemma append_nil_l s : "" +:+ s = s.
Proof. reflexivity. Qed.

Lemma append_cons c p s : String c p +:+ s = String c (p +:+ s).
Proof. reflexivity. Qed.

Lemma HasPrefix_app p s : HasPrefix (p +:+ s) p = true.
Proof.
  unfold HasPrefix. induction p as [|c p IH].
  - rewrite append_nil_l. by destruct s.
  - rewrite append_cons. simpl.
    destruct (ascii_dec c c) as [_|Hne]; [exact IH | done].
Qed.

Lemma HasPrefix_inv s p : HasPrefix s p = true -> exists t, s = p +:+ t.
Proof.
  unfold HasPrefix. revert s. induction p as [|c p IH]; intros s H; simpl in *.
  - by exists s.
  - destruct s as [|d s]; [done|]. simpl in H.
    destruct (ascii_dec c d) as [->|]; [|done].
    destruct (IH _ H) as [t ->]. by exists t.
Qed.

Lemma drop_bytes_app p s : drop_bytes (len p) (p +:+ s) = s.
Proof.
  induction p as [|c p IH]; [by rewrite append_nil_l; destruct s |].
  rewrite append_cons. exact IH.
Qed.

Lemma len_app p s : len (p +:+ s) = (len p + len s)%nat.
Proof.
  unfold len. induction p as [|c p IH]; [done |].
  rewrite append_cons. simpl. by rewrite IH.
Qed.

Lemma slice_from_app p s : slice_from (len p) (p +:+ s) = Some s.
Proof.
  unfold slice_from. rewrite len_app, drop_bytes_app.
  by rewrite (proj2 (Nat.leb_le _ _)) by lia.
Qed.


Lemma prefix_cons c p d s :
  String.prefix (String c p) (String d s) =
  if ascii_dec c d then String.prefix p s else false.
Proof. reflexivity. Qed.

Lemma prefix_nil s : String.prefix "" s = true.
Proof. by destruct s. Qed.

Lemma len_cons c s : len (String c s) = S (len s).
Proof. reflexivity. Qed.

Lemma HasPrefix_cons s c p :
  HasPrefix s (String c p) = true -> exists t, s = String c t /\ HasPrefix t p = true.
Proof.
  unfold HasPrefix. destruct s as [|d s]; simpl; [done|].
  destruct (ascii_dec c d) as [->|]; [|done]. intros H. by exists s.
Qed.

Lemma HasPrefix_false_app s p t : HasPrefix s p = false -> s <> p +:+ t.
Proof. intros H ->. by rewrite HasPrefix_app in H. Qed.

(** Every line a handler writes to its reply is non-empty. *)
Lemma len_app_pos a b : (0 < len b)%nat -> (0 < len (a +:+ b))%nat.
Proof. rewrite len_app. lia. Qed.

Example Fields_ex :
  Fields "  12  abc " = ["12"; "abc"] /\ Fields "" = []
  /\ TrimSpace "  a b  " = "a b"
  /\ Atoi "12" = Some 12 /\ Atoi "-1" = Some (-1)
  /\ Atoi "+" = None /\ Atoi "1x" = None
  /\ Atoi "9223372036854775808" = None
  /\ Atoi "-9223372036854775808" = Some (- 2 ^ 63).
Proof. repeat split; reflexivity. Qed.

End GoStringsFacts.

(** ** [marshalSubjects] *)

Module MarshalFacts.

Import GoInt GoStrings GoIntFacts GoStringsFacts.

Lemma resolve_cons2 c d s :
  resolve (String c (String d s)) = if Ascii.eqb c "@" then String d s else String c (String d s).
Proof. reflexivity. Qed.

Lemma resolve_single c : resolve (String c EmptyString) = String c EmptyString.
Proof. unfold resolve. simpl. reflexivity. Qed.

Lemma HasPrefix_at c s : HasPrefix (String c s) "@" = Ascii.eqb c "@".
Proof.
  unfold HasPrefix. rewrite prefix_cons, prefix_nil.
  destruct (ascii_dec "@" c) as [<-|Hne]; [done|].
  symmetry. apply Ascii.eqb_neq. congruence.
Qed.

Lemma resolve_spec name :
  resolve name =
  if decide ((1 < len name)%nat /\ HasPrefix name "@" = true)
  then drop_bytes 1 name else name.
Proof.
  destruct name as [|c [|d s]].
  - case_decide as H; [|done]. simpl in H. lia.
  - rewrite resolve_single. case_decide as H; [|done]. simpl in H. lia.
  - rewrite resolve_cons2. rewrite HasPrefix_at.
    destruct (Ascii.eqb c "@"); case_decide as H; simpl; try done.
    + exfalso. apply H. split; [simpl; lia | done].
    + by destruct H.
Qed.

Lemma resolve_bare name : HasPrefix name "@" = false -> resolve name = name.
Proof. intros H. rewrite resolve_spec. case_decide as H'; [|done]. destruct H'. congruence. Qed.

Lemma resolve_mention b : b <> "" -> resolve ("@" +:+ b) = b.
Proof. destruct b as [|c s]; [done|]. intros _. reflexivity. Qed.

Lemma resolve_eq_bare b n :
  b <> "" -> HasPrefix b "@" = false ->
  resolve n = b <-> n = b \/ n = "@" +:+ b.
Proof.
  intros Hb Hbare. split.
  - destruct n as [|c [|d s]].
    + intros H. by left.
    + rewrite resolve_single. intros H. by left.
    + rewrite resolve_cons2. destruct (Ascii.eqb_spec c "@") as [->|]; intros H.
      * right. by rewrite <- H.
      * by left.
  - intros [->| ->]; [by apply resolve_bare | by apply resolve_mention].
Qed.

Lemma resolve_len name : (len name - 1 <= len (resolve name))%nat.
Proof.
  destruct name as [|c [|d s]]; [simpl; lia | simpl; lia |].
  rewrite resolve_cons2. destruct (Ascii.eqb c "@"); simpl; lia.
Qed.

Lemma net_sum_absent n subs : n ∉ resolved_names subs -> net_sum n subs = 0.
Proof.
  induction subs as [|s subs IH]; [done|]. intros H.
  apply not_elem_of_cons in H as [Hne H]. simpl.
  destruct (decide (resolve (Name s) = n)); [congruence | auto].
Qed.

Lemma foldl_marshal_lookup subs : forall acc n,
  foldl marshal_step acc subs !! n =
  if decide (n ∈ resolved_names subs)
  then Some (wrap (default 0 (acc !! n) + net_sum n subs))
  else acc !! n.
Proof.
  induction subs as [|s subs IH]; intros acc n.
  - rewrite decide_False; [done|]. apply not_elem_of_nil.
  - change (foldl marshal_step acc (s :: subs))
      with (foldl marshal_step (marshal_step acc s) subs).
    rewrite IH.
    change (resolved_names (s :: subs))
      with (resolve (Name s) :: resolved_names subs).
    change (net_sum n (s :: subs))
      with (if decide (resolve (Name s) = n)
            then Karma s + net_sum n subs else net_sum n subs).
    unfold marshal_step.
    destruct (decide (resolve (Name s) = n)) as [Heq|Hne].
    + subst n. rewrite lookup_insert_eq.
      rewrite (decide_True (P := _ ∈ _ :: _)) by apply list_elem_of_here.
      destruct (decide (_ ∈ resolved_names subs)) as [Hin|Hin]; cbn [from_option id].
      * unfold add. rewrite wrap_add_l. do 2 f_equal. lia.
      * rewrite net_sum_absent by done. unfold add. do 2 f_equal. lia.
    + rewrite lookup_insert_ne by done.
      destruct (decide (n ∈ resolved_names subs)) as [Hin|Hin].
      * rewrite decide_True; [done | by apply list_elem_of_further].
      * rewrite decide_False; [done|]. rewrite not_elem_of_cons. done.
Qed.

(** The entry [marshalSubjects] holds for a name: none when the name is
    not mentioned, the wrapped sum of its adjustments otherwise. *)
Lemma marshalSubjects_lookup subs n :
  marshalSubjects subs !! n =
  if decide (n ∈ resolved_names subs) then Some (wrap (net_sum n subs)) else None.
Proof.
  unfold marshalSubjects. rewrite foldl_marshal_lookup, lookup_empty. simpl.
  by rewrite Z.add_0_l.
Qed.

Lemma marshalSubjects_is_Some subs n :
  is_Some (marshalSubjects subs !! n) <-> n ∈ resolved_names subs.
Proof.
  rewrite marshalSubjects_lookup.
  destruct (decide (n ∈ resolved_names subs)) as [Hin|Hin]; split; intros H';
    try done; by destruct H'.
Qed.

Lemma elem_of_resolved_names n subs :
  n ∈ resolved_names subs <-> exists s, s ∈ subs /\ resolve (Name s) = n.
Proof.
  unfold resolved_names. rewrite list_elem_of_fmap.
  split; intros (s & H1 & H2); exists s; by split.
Qed.

(** C10: [marshalSubjects] strips a leading [@] only from a name longer
    than one byte, and one [@] at most: the name [@] is filed under [@],
    the name [@@x] under [@x], and a bare name [b] receives exactly the
    subjects named [b] or [@b]. *)
Theorem marshalSubjects_at_stripping :
  (forall name,
     resolve name =
     if decide ((1 < len name)%nat /\ HasPrefix name "@" = true)
     then drop_bytes 1 name else name)
  /\ resolve "@" = "@"
  /\ (forall x, resolve ("@@" +:+ x) = "@" +:+ x)
  /\ (forall name, (len name - 1 <= len (resolve name))%nat)
  /\ (forall subs n,
        is_Some (marshalSubjects subs !! n) <->
        exists s, s ∈ subs /\ resolve (Name s) = n)
  /\ (forall subs s, s ∈ subs -> Name s = "@" ->
        is_Some (marshalSubjects subs !! "@"))
  /\ (forall subs s x, s ∈ subs -> Name s = "@@" +:+ x ->
        is_Some (marshalSubjects subs !! ("@" +:+ x)))
  /\ (forall subs b, b <> "" -> HasPrefix b "@" = false ->
        (is_Some (marshalSubjects subs !! b) <->
         exists s, s ∈ subs /\ (Name s = b \/ Name s = "@" +:+ b))).
Proof.
  split; [exact resolve_spec|].
  split; [reflexivity|].
  split; [reflexivity|].
  split; [exact resolve_len|].
  assert (Hkeys : forall subs n,
            is_Some (marshalSubjects subs !! n) <->
            exists s, s ∈ subs /\ resolve (Name s) = n).
  { intros subs n. by rewrite marshalSubjects_is_Some, elem_of_resolved_names. }
  split; [exact Hkeys|].
  split; [|split].
  - intros subs s Hs Hname. apply Hkeys. exists s. by rewrite Hname.
  - intros subs s x Hs Hname. apply Hkeys. exists s. by rewrite Hname.
  - intros subs b Hb Hbare. rewrite Hkeys.
    split; intros (s & Hs & H); exists s; (split; [done|]);
      by apply (resolve_eq_bare b (Name s)).
Qed.

(** The unit test of the merge: [@alice] and [alice] share one entry. *)
Example marshalSubjects_alice :
  marshalSubjects [{| Name := "@alice"; Karma := 1 |}; {| Name := "alice"; Karma := 2 |};
                   {| Name := "@"; Karma := 5 |}; {| Name := "@@x"; Karma := -1 |}]
  = <["alice" := 3]> (<["@" := 5]> (<["@x" := -1]> ∅)).
Proof. by vm_compute. Qed.

End MarshalFacts.

(** ** The legacy handlers *)

Module LegacyFacts.

Import Discord Legacy GoInt GoStrings GoIntFacts GoStringsFacts MarshalFacts.

Lemma append_assoc a b c : (a +:+ b) +:+ c = a +:+ (b +:+ c).
Proof.
  induction a as [|x a IH]; [by rewrite !append_nil_l|].
  rewrite !append_cons. by rewrite IH.
Qed.

Lemma append_nil_r a : a +:+ "" = a.
Proof. induction a as [|x a IH]; [done|]. rewrite append_cons. by rewrite IH. Qed.

Lemma World_eta w :
  {| ents := ents w; cfgs := cfgs w; writes := writes w; calls := calls w |} = w.
Proof. by destruct w. Qed.

Lemma bump_value_0 old : bump_value 0 old = old.
Proof. reflexivity. Qed.

Lemma bump_value_nonzero d old :
  d <> 0 ->
  bump_value d old =
  if (add (default 0 old) d =? 0)%Z then None else Some (add (default 0 old) d).
Proof. intros H. unfold bump_value. by rewrite (proj2 (Z.eqb_neq d 0) H). Qed.

Lemma partial_alter_bump (d : Z) (key : string * string) (e : gmap (string * string) Z) :
  d <> 0 ->
  partial_alter (bump_value d) key e =
  if (add (default 0 (e !! key)) d =? 0)%Z then delete key e
  else <[key := add (default 0 (e !! key)) d]> e.
Proof.
  intros Hd. apply map_eq. intros key'.
  destruct (decide (key = key')) as [<-|Hne].
  - rewrite lookup_partial_alter_eq, bump_value_nonzero by done.
    destruct (add _ d =? 0)%Z; [by rewrite lookup_delete_eq | by rewrite lookup_insert_eq].
  - rewrite lookup_partial_alter_ne by done.
    destruct (add _ d =? 0)%Z; [by rewrite lookup_delete_ne | by rewrite lookup_insert_ne].
Qed.

(** One iteration of the loop of [ModKarma]. *)
Lemma ModKarma_body_run g reply sep n d w :
  ModKarma_body g (reply, sep) (n, d) w =
  Some ((reply +:+ render_lines sep (mutations g [(n, d)] (ents w)),
         if (d =? 0)%Z then sep else " "),
        {| ents := partial_alter (bump_value d) (g, n) (ents w);
           cfgs := cfgs w;
           writes := writes w ++ ledger_writes g [(n, d)] (ents w);
           calls := calls w |}).
Proof.
  unfold ModKarma_body. simpl mutations. simpl ledger_writes.
  destruct (Z.eqb_spec d 0) as [->|Hd].
  - simpl. rewrite append_nil_r, app_nil_r.
    rewrite partial_alter_id by done. by rewrite World_eta.
  - unfold mbind, mret, M_bind, M_ret, bind, ret, FirstOrCreateEntity.
    rewrite partial_alter_bump by done.
    destruct (ents w !! (g, n)) as [k|] eqn:Hk; simpl;
      rewrite append_nil_r; destruct (_ =? 0)%Z; simpl; try done.
    + by rewrite delete_insert_eq, <- app_assoc.
    + by rewrite insert_insert_eq, <- app_assoc.
Qed.

Lemma apply_deltas_cons g n d order e :
  apply_deltas g ((n, d) :: order) e =
  apply_deltas g order (partial_alter (bump_value d) (g, n) e).
Proof. reflexivity. Qed.

Lemma render_lines_app sep l1 l2 :
  render_lines sep (l1 ++ l2) =
  render_lines sep l1 +:+ render_lines (match l1 with [] => sep | _ => " " end) l2.
Proof.
  revert sep. induction l1 as [|[n k] l1 IH]; intros sep; [done|].
  simpl. rewrite IH, append_assoc. by destruct l1.
Qed.

(** The loop of [ModKarma] over a visiting order. *)
Lemma ModKarma_loop g order : forall reply sep w,
  exists sep',
    foldM (ModKarma_body g) (reply, sep) order w =
    Some ((reply +:+ render_lines sep (mutations g order (ents w)), sep'),
          {| ents := apply_deltas g order (ents w);
             cfgs := cfgs w;
             writes := writes w ++ ledger_writes g order (ents w);
             calls := calls w |}).
Proof.
  induction order as [|[n d] order IH]; intros reply sep w.
  - exists sep. simpl. by rewrite append_nil_r, app_nil_r, World_eta.
  - cbn [foldM]. unfold mbind, M_bind, bind. rewrite ModKarma_body_run.
    edestruct IH as [sep' ->]. exists sep'. cbn [ents cfgs writes calls].
    rewrite apply_deltas_cons. simpl mutations. simpl ledger_writes.
    destruct (Z.eqb_spec d 0) as [->|Hd]; simpl.
    + by rewrite append_nil_r, app_nil_r.
    + by rewrite append_nil_r, append_assoc, <- !app_assoc.
Qed.

(** The invariant is kept by every visiting order. *)
Lemma ledger_inv_bump g n d e :
  ledger_inv e -> ledger_inv (partial_alter (bump_value d) (g, n) e).
Proof.
  intros Hinv key v. destruct (decide ((g, n) = key)) as [<-|Hne].
  - rewrite lookup_partial_alter_eq. unfold bump_value.
    destruct (Z.eqb_spec d 0) as [_|_]; [apply Hinv|].
    destruct (Z.eqb_spec (add (default 0 (e !! (g, n))) d) 0) as [_|Hv]; [done|].
    by intros [= <-].
  - rewrite lookup_partial_alter_ne by done. apply Hinv.
Qed.

Lemma ledger_inv_apply_deltas g order : forall e,
  ledger_inv e -> ledger_inv (apply_deltas g order e).
Proof.
  induction order as [|[n d] order IH]; intros e Hinv; [done|].
  rewrite apply_deltas_cons. by apply IH, ledger_inv_bump.
Qed.

Lemma apply_deltas_other_guild g order : forall e g' n,
  g' <> g -> apply_deltas g order e !! (g', n) = e !! (g', n).
Proof.
  induction order as [|[n0 d] order IH]; intros e g' n Hg; [done|].
  rewrite apply_deltas_cons, IH by done.
  apply lookup_partial_alter_ne. congruence.
Qed.

Lemma apply_deltas_absent g order : forall e n,
  n ∉ order.*1 -> apply_deltas g order e !! (g, n) = e !! (g, n).
Proof.
  induction order as [|[n0 d] order IH]; intros e n Hn; [done|].
  rewrite fmap_cons in Hn. apply not_elem_of_cons in Hn as [Hne Hn].
  rewrite apply_deltas_cons, IH by done.
  apply lookup_partial_alter_ne. simpl in Hne. congruence.
Qed.

Lemma apply_deltas_present g order : forall e n d,
  NoDup order.*1 -> (n, d) ∈ order ->
  apply_deltas g order e !! (g, n) = bump_value d (e !! (g, n)).
Proof.
  induction order as [|[n0 d0] order IH]; intros e n d Hnd Hin.
  - by apply elem_of_nil in Hin.
  - rewrite fmap_cons in Hnd. apply NoDup_cons in Hnd as [Hn0 Hnd].
    rewrite apply_deltas_cons.
    apply elem_of_cons in Hin as [[= -> ->]|Hin].
    + rewrite apply_deltas_absent by done. apply lookup_partial_alter_eq.
    + rewrite (IH _ n d) by done. f_equal.
      apply lookup_partial_alter_ne. intros [= ->].
      apply Hn0. simpl. apply list_elem_of_fmap. by exists (n, d).
Qed.

Lemma mutations_names g order : forall e,
  (mutations g order e).*1 = (filter (fun kv => snd kv <> 0) order).*1.
Proof.
  induction order as [|[n d] order IH]; intros e; [done|].
  simpl mutations. rewrite filter_cons. simpl.
  destruct (Z.eqb_spec d 0) as [->|Hd].
  - rewrite decide_False by (intros H; by apply H). apply IH.
  - rewrite decide_True by done. rewrite !fmap_cons. f_equal. apply IH.
Qed.

Lemma mutations_elem g order : forall e n v,
  NoDup order.*1 ->
  (n, v) ∈ mutations g order e <->
  exists d, (n, d) ∈ order /\ d <> 0 /\ v = add (default 0 (e !! (g, n))) d.
Proof.
  induction order as [|[n0 d0] order IH]; intros e n v Hnd.
  - simpl. split; [intros H; by apply elem_of_nil in H|].
    intros (d & H & _). by apply elem_of_nil in H.
  - rewrite fmap_cons in Hnd. apply NoDup_cons in Hnd as [Hn0 Hnd].
    assert (Hlater : forall d, (n, d) ∈ order ->
              partial_alter (bump_value d0) (g, n0) e !! (g, n) = e !! (g, n)).
    { intros d Hin. apply lookup_partial_alter_ne. intros [= ->].
      apply Hn0. simpl. apply list_elem_of_fmap. by exists (n, d). }
    simpl mutations. destruct (Z.eqb_spec d0 0) as [->|Hd0].
    + rewrite IH by done. split.
      * intros (d & Hin & Hd & ->). exists d. rewrite (Hlater d Hin).
        split; [by apply list_elem_of_further | done].
      * intros (d & Hin & Hd & ->).
        apply elem_of_cons in Hin as [[= -> ->]|Hin]; [done|].
        exists d. by rewrite (Hlater d Hin).
    + rewrite elem_of_cons, IH by done. split.
      * intros [[= -> ->]|(d & Hin & Hd & ->)].
        -- exists d0. split; [apply list_elem_of_here | done].
        -- exists d. rewrite (Hlater d Hin).
           split; [by apply list_elem_of_further | done].
      * intros (d & Hin & Hd & ->).
        apply elem_of_cons in Hin as [[= -> ->]|Hin]; [by left|].
        right. exists d. by rewrite (Hlater d Hin).
Qed.

Lemma ledger_writes_keys g order : forall e wr,
  wr ∈ ledger_writes g order e ->
  exists n d, (n, d) ∈ order /\ d <> 0 /\ write_key wr = Some (g, n).
Proof.
  induction order as [|[n d] order IH]; intros e wr Hwr.
  - by apply elem_of_nil in Hwr.
  - simpl in Hwr. destruct (Z.eqb_spec d 0) as [->|Hd].
    + destruct (IH _ _ Hwr) as (n' & d' & Hin & H). exists n', d'.
      split; [by apply list_elem_of_further | done].
    + apply elem_of_app in Hwr as [Hwr|Hwr].
      * exists n, d. split; [apply list_elem_of_here|]. split; [done|].
        destruct (e !! (g, n)); [by apply elem_of_nil in Hwr|].
        apply list_elem_of_singleton in Hwr. by subst wr.
      * apply elem_of_cons in Hwr as [->|Hwr].
        -- exists n, d. split; [apply list_elem_of_here|]. split; [done|].
           by destruct (_ =? 0)%Z.
        -- destruct (IH _ _ Hwr) as (n' & d' & Hin & H). exists n', d'.
           split; [by apply list_elem_of_further | done].
Qed.

Lemma ledger_writes_present g order : forall e n d,
  NoDup order.*1 -> (n, d) ∈ order -> d <> 0 ->
  (if (add (default 0 (e !! (g, n))) d =? 0)%Z then DeleteEntity g n
   else SaveEntity g n (add (default 0 (e !! (g, n))) d))
  ∈ ledger_writes g order e.
Proof.
  induction order as [|[n0 d0] order IH]; intros e n d Hnd Hin Hd.
  - by apply elem_of_nil in Hin.
  - rewrite fmap_cons in Hnd. apply NoDup_cons in Hnd as [Hn0 Hnd].
    simpl ledger_writes.
    apply elem_of_cons in Hin as [[= -> ->]|Hin].
    + rewrite (proj2 (Z.eqb_neq d0 0) Hd).
      apply elem_of_app. right. apply list_elem_of_here.
    + assert (Hlater : partial_alter (bump_value d0) (g, n0) e !! (g, n) = e !! (g, n)).
      { apply lookup_partial_alter_ne. intros [= ->].
        apply Hn0. simpl. apply list_elem_of_fmap. by exists (n, d). }
      specialize (IH (partial_alter (bump_value d0) (g, n0) e) n d Hnd Hin Hd).
      rewrite Hlater in IH.
      destruct (d0 =? 0)%Z; [done|].
      apply elem_of_app. right. by apply list_elem_of_further.
Qed.

Lemma ledger_writes_no_zero g order : forall e g' n',
  SaveEntity g' n' 0 ∉ ledger_writes g order e.
Proof.
  induction order as [|[n d] order IH]; intros e g' n' Hin.
  - by apply elem_of_nil in Hin.
  - simpl in Hin. destruct (d =? 0)%Z; [by apply IH in Hin|].
    apply elem_of_app in Hin as [Hin|Hin].
    + destruct (e !! (g, n)); [by apply elem_of_nil in Hin|].
      by apply list_elem_of_singleton in Hin.
    + apply elem_of_cons in Hin as [Heq|Hin]; [|by apply IH in Hin].
      destruct (Z.eqb_spec (add (default 0 (e !! (g, n))) d) 0) as [|Hv]; [done|].
      injection Heq as _ _ Heq. by apply Hv.
Qed.

Lemma len_karma_line sep n k : (0 < len (karma_line sep n k))%nat.
Proof. unfold karma_line. rewrite !len_app. simpl. lia. Qed.

Lemma len_render_lines sep lines :
  len (render_lines sep lines) = 0%nat <-> lines = [].
Proof.
  destruct lines as [|[n k] lines]; [done|]. simpl. rewrite len_app.
  pose proof (len_karma_line sep n k). split; [lia | done].
Qed.

(** What a fair [range] visits. *)
Lemma fair_NoDup range m : fair range -> NoDup (range m).*1.
Proof.
  intros Hfair. rewrite (Hfair m). apply NoDup_fst_map_to_list.
Qed.

Lemma fair_elem range m n d : fair range -> (n, d) ∈ range m <-> m !! n = Some d.
Proof. intros Hfair. rewrite (Hfair m). apply elem_of_map_to_list. Qed.

Lemma fair_absent range (m : gmap string Z) n :
  fair range -> m !! n = None -> n ∉ (range m).*1.
Proof.
  intros Hfair Hn Hin. apply list_elem_of_fmap in Hin as ([n' d] & -> & Hin).
  apply (fair_elem range m) in Hin; [|done]. simpl in Hn. congruence.
Qed.


Section Runs.

Variable ParseSubjects : string -> list Subject.
Variable range : gmap string Z -> list (string * Z).

(** What a run of [ModKarma] leaves behind, for any visiting order. *)
Lemma ModKarma_outcome ctx w :
  exists w' cw,
    ModKarma ParseSubjects range ctx w = Some (tt, w')
    /\ ents w' =
       apply_deltas (Message.GuildID (Job ctx))
         (range (marshalSubjects (ParseSubjects (Message.Content (Job ctx)))))
         (ents w)
    /\ writes w' =
       (writes w
        ++ ledger_writes (Message.GuildID (Job ctx))
             (range (marshalSubjects (ParseSubjects (Message.Content (Job ctx)))))
             (ents w)
        ++ cw)%list
    /\ (forall wr, wr ∈ cw -> write_key wr = None)
    /\ calls w' =
       (calls w
       ++ match mutations (Message.GuildID (Job ctx))
                  (range (marshalSubjects (ParseSubjects (Message.Content (Job ctx)))))
                  (ents w)
          with
          | [] => []
          | lines =>
              if default false (cfgs w !! Message.GuildID (Job ctx)) then []
              else [ChannelMessageSend (Message.ChannelID (Job ctx))
                      (render_lines "" lines)]
          end)%list.
Proof.
  unfold ModKarma.
  set (g := Message.GuildID (Job ctx)).
  set (order := range _).
  unfold mbind, M_bind, bind.
  destruct (ModKarma_loop g order "" "" w) as [sep' ->].
  rewrite append_nil_l. cbn [fst].
  destruct (mutations g order (ents w)) as [|line lines] eqn:Hlines.
  - eexists _, (@nil DbWrite). split; [reflexivity|]. cbn [ents writes calls].
    rewrite !app_nil_r. repeat split; try done.
    intros wr Hwr. by apply elem_of_nil in Hwr.
  - rewrite <- Hlines.
    assert (Hlen : (len (render_lines "" (mutations g order (ents w))) =? 0)%nat = false).
    { apply Nat.eqb_neq. rewrite len_render_lines, Hlines. done. }
    rewrite Hlen. unfold FirstOrCreateConfig. cbn [cfgs].
    destruct (cfgs w !! g) as [[|]|] eqn:Hcfg; cbn [negb Config.NoAnnounce from_option id].
    + eexists _, (@nil DbWrite). split; [reflexivity|]. cbn [ents writes calls].
      rewrite !app_nil_r; try rewrite Hlines. repeat split; try done.
      intros wr Hwr. by apply elem_of_nil in Hwr.
    + eexists _, (@nil DbWrite). split; [reflexivity|]. cbn [ents writes calls].
      rewrite !app_nil_r; try rewrite Hlines. repeat split; try done.
      intros wr Hwr. by apply elem_of_nil in Hwr.
    + eexists _, (cons (CreateConfig g) nil). split; [reflexivity|]. cbn [ents writes calls].
      rewrite <- app_assoc; try rewrite Hlines. repeat split; try done.
      intros wr Hwr. apply list_elem_of_singleton in Hwr. by subst.
Qed.

(** C1: a run of [ModKarma] on a guild message whose subjects all have a
    non-empty resolved name keeps the zero-balance invariant of the
    ledger.  For each name with a non-zero net adjustment the row is
    deleted when the new karma is exactly zero and saved with the new
    karma otherwise; no zero is ever saved; every other row is left as it
    was. *)
Theorem ModKarma_zero_balance ctx w :
  fair range ->
  Message.GuildID (Job ctx) <> "" ->
  "" ∉ resolved_names (ParseSubjects (Message.Content (Job ctx))) ->
  ledger_inv (ents w) ->
  exists w' ws,
    ModKarma ParseSubjects range ctx w = Some (tt, w')
    /\ ledger_inv (ents w')
    /\ writes w' = (writes w ++ ws)%list
    /\ (forall g n, SaveEntity g n 0 ∉ ws)
    /\ (forall n d,
          marshalSubjects (ParseSubjects (Message.Content (Job ctx))) !! n = Some d ->
          d <> 0 ->
          if (add (default 0 (ents w !! (Message.GuildID (Job ctx), n))) d =? 0)%Z
          then ents w' !! (Message.GuildID (Job ctx), n) = None
               /\ DeleteEntity (Message.GuildID (Job ctx)) n ∈ ws
          else ents w' !! (Message.GuildID (Job ctx), n)
               = Some (add (default 0 (ents w !! (Message.GuildID (Job ctx), n))) d)
               /\ SaveEntity (Message.GuildID (Job ctx)) n
                    (add (default 0 (ents w !! (Message.GuildID (Job ctx), n))) d) ∈ ws)
    /\ (forall g n,
          ents w' !! (g, n) =
          if decide (g = Message.GuildID (Job ctx)) then
            match marshalSubjects (ParseSubjects (Message.Content (Job ctx))) !! n with
            | Some d => bump_value d (ents w !! (g, n))
            | None => ents w !! (g, n)
            end
          else ents w !! (g, n)).
Proof.
  intros Hfair _ _ Hinv.
  destruct (ModKarma_outcome ctx w) as (w' & cw & Hrun & Hents & Hwrites & Hcw & _).
  set (g0 := Message.GuildID (Job ctx)) in *.
  set (m := marshalSubjects _) in *.
  exists w', (ledger_writes g0 (range m) (ents w) ++ cw)%list.
  split; [done|]. split; [rewrite Hents; by apply ledger_inv_apply_deltas|].
  split; [done|]. split; [|split].
  - intros g n Hin. apply elem_of_app in Hin as [Hin|Hin].
    + by apply ledger_writes_no_zero in Hin.
    + by apply Hcw in Hin.
  - intros n d Hn Hd.
    assert (Hin : (n, d) ∈ range m) by by apply fair_elem.
    pose proof (ledger_writes_present g0 (range m) (ents w) n d
                  (fair_NoDup range m Hfair) Hin Hd) as Hwr.
    rewrite Hents, (apply_deltas_present g0 (range m) (ents w) n d)
      by (done || by apply fair_NoDup).
    rewrite bump_value_nonzero by done.
    destruct (_ =? 0)%Z; (split; [done|]); apply elem_of_app; by left.
  - intros g n. rewrite Hents. case_decide as Hg.
    + subst g. destruct (m !! n) as [d|] eqn:Hn.
      * apply apply_deltas_present; [by apply fair_NoDup | by apply fair_elem].
      * apply apply_deltas_absent. by apply fair_absent.
    + by apply apply_deltas_other_guild.
Qed.

(** C3: the occurrences of a resolved name are summed into one net
    adjustment before the ledger is touched; on a guild message whose
    subjects all have a non-empty resolved name, a name whose net
    adjustment is zero has no row read, written or deleted and is absent
    from the mutation result, of which the reply is the rendering. *)
Theorem ModKarma_merges_and_drops ctx w :
  fair range ->
  Message.GuildID (Job ctx) <> "" ->
  "" ∉ resolved_names (ParseSubjects (Message.Content (Job ctx))) ->
  (forall n,
     marshalSubjects (ParseSubjects (Message.Content (Job ctx))) !! n =
     if decide (n ∈ resolved_names (ParseSubjects (Message.Content (Job ctx))))
     then Some (wrap (net_sum n (ParseSubjects (Message.Content (Job ctx)))))
     else None)
  /\ exists w' ws lines,
       ModKarma ParseSubjects range ctx w = Some (tt, w')
       /\ writes w' = (writes w ++ ws)%list
       /\ calls w' =
          (calls w
           ++ match lines with
              | [] => []
              | _ =>
                  if default false (cfgs w !! Message.GuildID (Job ctx)) then []
                  else [ChannelMessageSend (Message.ChannelID (Job ctx))
                          (render_lines "" lines)]
              end)%list
       /\ (forall n v,
             (n, v) ∈ lines <->
             exists d,
               marshalSubjects (ParseSubjects (Message.Content (Job ctx))) !! n = Some d
               /\ d <> 0
               /\ v = add (default 0 (ents w !! (Message.GuildID (Job ctx), n))) d)
       /\ (forall n,
             wrap (net_sum n (ParseSubjects (Message.Content (Job ctx)))) = 0 ->
             ents w' !! (Message.GuildID (Job ctx), n)
             = ents w !! (Message.GuildID (Job ctx), n)
             /\ (forall wr, wr ∈ ws ->
                   write_key wr <> Some (Message.GuildID (Job ctx), n))
             /\ n ∉ lines.*1).
Proof.
  intros Hfair _ _. split; [intros n; apply marshalSubjects_lookup|].
  destruct (ModKarma_outcome ctx w) as (w' & cw & Hrun & Hents & Hwrites & Hcw & Hcalls).
  set (g0 := Message.GuildID (Job ctx)) in *.
  set (subs := ParseSubjects _) in *.
  set (m := marshalSubjects subs) in *.
  exists w', (ledger_writes g0 (range m) (ents w) ++ cw)%list,
    (mutations g0 (range m) (ents w)).
  split; [done|]. split; [done|].
  split; [rewrite Hcalls; by destruct (mutations g0 (range m) (ents w))|].
  assert (Hlines : forall n v,
            (n, v) ∈ mutations g0 (range m) (ents w) <->
            exists d, m !! n = Some d /\ d <> 0
                      /\ v = add (default 0 (ents w !! (g0, n))) d).
  { intros n v. rewrite mutations_elem by by apply fair_NoDup.
    split; intros (d & Hin & H); exists d; (split; [|done]);
      by apply (fair_elem range m n d). }
  split; [exact Hlines|].
  intros n Hzero.
  assert (Hm : m !! n = None \/ m !! n = Some 0).
  { unfold m. rewrite marshalSubjects_lookup. case_decide; [right|by left].
    by rewrite Hzero. }
  split; [|split].
  - rewrite Hents. destruct Hm as [Hm|Hm].
    + apply apply_deltas_absent. by apply fair_absent.
    + rewrite (apply_deltas_present g0 (range m) (ents w) n 0);
        [done | by apply fair_NoDup | by apply fair_elem].
  - intros wr Hwr Hkey. apply elem_of_app in Hwr as [Hwr|Hwr].
    + apply ledger_writes_keys in Hwr as (n' & d & Hin & Hd & Hkey').
      rewrite Hkey in Hkey'. injection Hkey' as <-.
      apply (fair_elem range m n d) in Hin; [|done].
      destruct Hm as [Hm|Hm]; rewrite Hm in Hin; [done|]. by injection Hin as <-.
    + apply Hcw in Hwr. by rewrite Hwr in Hkey.
  - intros Hin. apply list_elem_of_fmap in Hin as ([n' v] & -> & Hin).
    apply Hlines in Hin as (d & Hd & Hnz & _). simpl in Hm.
    destruct Hm as [Hm|Hm]; rewrite Hm in Hd; [done|]. by injection Hd as <-.
Qed.

(** The loop of [CheckKarma] reads and leaves the world as it is. *)
Lemma CheckKarma_loop g order : forall reply sep w,
  exists sep',
    foldM (CheckKarma_body g) (reply, sep) order w =
    Some ((reply +:+ render_lines sep (lookups g order (ents w)), sep'), w).
Proof.
  induction order as [|[n d] order IH]; intros reply sep w.
  - exists sep. simpl. by rewrite append_nil_r.
  - cbn [foldM]. unfold mbind, M_bind, bind.
    unfold CheckKarma_body at 1. unfold mbind, mret, M_bind, M_ret, bind, ret, FirstEntity.
    assert (Hk : forall o : option Z,
              Entity.Karma (match o with
                            | Some k => {| Entity.GuildID := g; Entity.Name := n; Entity.Karma := k |}
                            | None => {| Entity.GuildID := ""; Entity.Name := ""; Entity.Karma := 0 |}
                            end) = default 0 o) by by intros [k|].
    destruct (ents w !! (g, n)) as [k|] eqn:Hlook;
      destruct (IH (reply +:+ karma_line sep n (default 0 (ents w !! (g, n)))) " " w)
        as [sep' Hrest];
      rewrite Hlook in Hrest; cbn [Entity.Karma]; cbn [from_option id] in Hrest;
      rewrite Hrest; exists sep'; unfold lookups; cbn [map fst];
      rewrite Hlook; cbn [from_option id render_lines]; by rewrite append_assoc.
Qed.

Lemma CheckKarma_run ctx w message :
  slice_from (len (Header ctx)) (Message.Content (Job ctx)) = Some message ->
  CheckKarma ParseSubjects range ctx w =
  Some (tt, {| ents := ents w; cfgs := cfgs w; writes := writes w;
               calls := (calls w ++
                 [ChannelMessageSend (Message.ChannelID (Job ctx))
                    (render_lines ""
                       (lookups (Message.GuildID (Job ctx))
                          (range (marshalSubjects (ParseSubjects message)))
                          (ents w)))])%list |}).
Proof.
  intros Hslice. unfold CheckKarma, after_header.
  unfold mbind, M_bind, bind. rewrite Hslice.
  edestruct CheckKarma_loop as [sep' ->]. by rewrite append_nil_l.
Qed.

(** Slicing past the end of the content panics. *)
Lemma CheckKarma_panic ctx w :
  slice_from (len (Header ctx)) (Message.Content (Job ctx)) = None ->
  CheckKarma ParseSubjects range ctx w = None.
Proof.
  intros Hslice. unfold CheckKarma, after_header.
  unfold mbind, M_bind, bind. by rewrite Hslice.
Qed.

Lemma lookups_names g order e : (lookups g order e).*1 = order.*1.
Proof.
  unfold lookups. induction order as [|[n d] order IH]; [done|].
  simpl. f_equal. exact IH.
Qed.

Lemma lookups_elem g order e n k :
  (n, k) ∈ lookups g order e <-> n ∈ order.*1 /\ k = default 0 (e !! (g, n)).
Proof.
  unfold lookups. rewrite !list_elem_of_fmap. split.
  - intros ([n' d] & [= -> ->] & Hin). split; [|done]. by exists (n', d).
  - intros (([n' d] & -> & Hin) & ->). by exists (n', d).
Qed.

Lemma fair_names range' subs n :
  fair range' -> n ∈ (range' (marshalSubjects subs)).*1 <-> n ∈ resolved_names subs.
Proof.
  intros Hfair. rewrite <- marshalSubjects_is_Some. split.
  - intros ([n' d] & -> & Hin)%list_elem_of_fmap.
    apply (fair_elem range' _ n' d) in Hin; [|done]. by exists d.
  - intros [d Hd]. apply list_elem_of_fmap. exists (n, d). split; [done|].
    by apply fair_elem.
Qed.

(** C5: [CheckKarma] is a pure read.  Both tables and the log of writes
    are left as they were, whatever the announce setting stored for the
    guild, and exactly one message is sent, with one line per requested
    name.  On a guild message whose requested names are all non-empty
    the line of a name reports its stored karma, or 0 when no row is
    stored. *)
Theorem CheckKarma_pure_read ctx w message :
  fair range ->
  slice_from (len (Header ctx)) (Message.Content (Job ctx)) = Some message ->
  exists lines,
    CheckKarma ParseSubjects range ctx w =
    Some (tt, {| ents := ents w; cfgs := cfgs w; writes := writes w;
                 calls := (calls w ++
                   [ChannelMessageSend (Message.ChannelID (Job ctx))
                      (render_lines "" lines)])%list |})
    /\ (forall n, n ∈ lines.*1 <-> n ∈ resolved_names (ParseSubjects message))
    /\ (Message.GuildID (Job ctx) <> "" ->
        "" ∉ resolved_names (ParseSubjects message) ->
        forall n k,
          (n, k) ∈ lines <->
          n ∈ resolved_names (ParseSubjects message)
          /\ k = default 0 (ents w !! (Message.GuildID (Job ctx), n))).
Proof.
  intros Hfair Hslice. eexists. split; [by apply CheckKarma_run|]. split.
  - intros n. rewrite lookups_names. by apply fair_names.
  - intros _ _ n k. by rewrite lookups_elem, fair_names.
Qed.

(** C6, as the code has it: the names of a karma query are the keys of a
    map, so duplicates of a resolved name are merged into one result, and
    the reply lists each distinct name once, in the order the map is
    visited. *)
Theorem CheckKarma_names_distinct ctx w message :
  fair range ->
  slice_from (len (Header ctx)) (Message.Content (Job ctx)) = Some message ->
  exists lines,
    CheckKarma ParseSubjects range ctx w =
    Some (tt, {| ents := ents w; cfgs := cfgs w; writes := writes w;
                 calls := (calls w ++
                   [ChannelMessageSend (Message.ChannelID (Job ctx))
                      (render_lines "" lines)])%list |})
    /\ NoDup lines.*1
    /\ (forall n, n ∈ lines.*1 <-> n ∈ resolved_names (ParseSubjects message))
    /\ lines.*1 = (range (marshalSubjects (ParseSubjects message))).*1.
Proof.
  intros Hfair Hslice. eexists. split; [by apply CheckKarma_run|].
  rewrite lookups_names. split; [by apply fair_NoDup|]. split; [|done].
  intros n. by apply fair_names.
Qed.

(** [SetAnnounce] on a message that names a setting. *)
Lemma SetAnnounce_run ctx w message on :
  slice_from (len (Header ctx)) (Message.Content (Job ctx)) = Some message ->
  announce_setting message = Some on ->
  SetAnnounce ctx w =
  Some (tt, {| ents := ents w;
               cfgs := <[Message.GuildID (Job ctx) := negb on]> (cfgs w);
               writes := (writes w
                          ++ match cfgs w !! Message.GuildID (Job ctx) with
                             | Some _ => []
                             | None => [CreateConfig (Message.GuildID (Job ctx))]
                             end
                          ++ [SaveConfig (Message.GuildID (Job ctx)) (negb on)])%list;
               calls := (calls w ++
                 [MessageReactionAdd (Message.ChannelID (Job ctx))
                    (Message.ID (Job ctx)) "👍"])%list |}).
Proof.
  intros Hslice Hon. unfold SetAnnounce, after_header.
  unfold mbind, M_bind, bind. rewrite Hslice, Hon.
  unfold FirstOrCreateConfig.
  destruct (cfgs w !! Message.GuildID (Job ctx)) as [b|]; simpl; [done|].
  by rewrite insert_insert_eq, <- app_assoc.
Qed.

(** A message that names no setting changes nothing and gets the usage. *)
Lemma SetAnnounce_usage ctx w message :
  slice_from (len (Header ctx)) (Message.Content (Job ctx)) = Some message ->
  announce_setting message = None ->
  SetAnnounce ctx w =
  Some (tt, {| ents := ents w; cfgs := cfgs w; writes := writes w;
               calls := (calls w ++
                 [ChannelMessageSendReply (Message.ChannelID (Job ctx))
                    Legacy.announce_usage])%list |}).
Proof.
  intros Hslice Hon. unfold SetAnnounce, after_header.
  unfold mbind, M_bind, bind. by rewrite Hslice, Hon.
Qed.

(** C4: in a guild (a non-empty guild ID), [SetAnnounce] stores
    [NoAnnounce] as the negation of the setting asked for.  A [ModKarma]
    that follows with a non-zero net adjustment, on a message whose
    subjects all have a non-empty resolved name, mutates the ledger the
    same way under either setting, and sends its reply exactly when the
    setting is on.  The consumer sends the reply of a ChangedKarma
    response exactly when its [Announce] flag is set. *)
Theorem announce_gating ctxA ctxM message on w :
  fair range ->
  Message.GuildID (Job ctxM) <> "" ->
  "" ∉ resolved_names (ParseSubjects (Message.Content (Job ctxM))) ->
  Message.GuildID (Job ctxA) = Message.GuildID (Job ctxM) ->
  slice_from (len (Header ctxA)) (Message.Content (Job ctxA)) = Some message ->
  announce_setting message = Some on ->
  (exists n d,
     marshalSubjects (ParseSubjects (Message.Content (Job ctxM))) !! n = Some d
     /\ d <> 0) ->
  (exists w1 w2 lines,
     SetAnnounce ctxA w = Some (tt, w1)
     /\ ents w1 = ents w
     /\ cfgs w1 !! Message.GuildID (Job ctxM) = Some (negb on)
     /\ ModKarma ParseSubjects range ctxM w1 = Some (tt, w2)
     /\ lines <> []
     /\ (forall n d,
           marshalSubjects (ParseSubjects (Message.Content (Job ctxM))) !! n = Some d ->
           ents w2 !! (Message.GuildID (Job ctxM), n)
           = bump_value d (ents w !! (Message.GuildID (Job ctxM), n)))
     /\ calls w2 =
        (calls w1
         ++ if on
            then [ChannelMessageSend (Message.ChannelID (Job ctxM))
                    (render_lines "" lines)]
            else [])%list)
  /\ (forall e rsp,
        event.CheckedKarma e = None ->
        event.CheckedLeaderboard e = None ->
        event.CheckedLoserboard e = None ->
        event.ChangedAnnounce e = None ->
        event.ChangedKarma e = Some rsp ->
        Bot.handle e =
        Bot.Processed Bot.CaseChangedKarma
          (if event.ChangedKarma.Announce rsp
           then [ChannelMessageSend
                   (event.ReplyTo.ChannelID (event.ChangedKarma.ReplyTo rsp))
                   (Bot.templateLevels (event.ChangedKarma.Who rsp))]
           else [])).
Proof.
  intros Hfair _ _ Hguild Hslice Hon (n0 & d0 & Hn0 & Hd0). split.
  - rewrite (SetAnnounce_run ctxA w message on Hslice Hon).
    eexists. destruct (ModKarma_outcome ctxM
      {| ents := ents w;
         cfgs := <[Message.GuildID (Job ctxA) := negb on]> (cfgs w);
         writes := (writes w
                    ++ match cfgs w !! Message.GuildID (Job ctxA) with
                       | Some _ => []
                       | None => [CreateConfig (Message.GuildID (Job ctxA))]
                       end
                    ++ [SaveConfig (Message.GuildID (Job ctxA)) (negb on)])%list;
         calls := (calls w ++
                   [MessageReactionAdd (Message.ChannelID (Job ctxA))
                      (Message.ID (Job ctxA)) "👍"])%list |})
      as (w2 & cw & Hrun & Hents & _ & _ & Hcalls).
    cbn [ents cfgs calls] in *.
    set (g0 := Message.GuildID (Job ctxM)) in *.
    set (m := marshalSubjects _) in *.
    exists w2, (mutations g0 (range m) (ents w)).
    split; [done|]. split; [done|].
    split; [rewrite Hguild; apply lookup_insert_eq|].
    split; [done|].
    assert (Hne : mutations g0 (range m) (ents w) <> []).
    { intros Hnil.
      assert (Hin : (n0, add (default 0 (ents w !! (g0, n0))) d0)
                    ∈ mutations g0 (range m) (ents w)).
      { apply mutations_elem; [by apply fair_NoDup|]. exists d0.
        split; [by apply fair_elem | done]. }
      rewrite Hnil in Hin. by apply elem_of_nil in Hin. }
    split; [done|]. split.
    + intros n d Hn. rewrite Hents.
      apply apply_deltas_present; [by apply fair_NoDup | by apply fair_elem].
    + rewrite Hcalls, Hguild, lookup_insert_eq. cbn [from_option id].
      destruct (mutations g0 (range m) (ents w)) as [|l ls]; [done|].
      by destruct on.
  - intros e rsp H1 H2 H3 H4 H5. unfold Bot.handle.
    rewrite H1, H2, H3, H4, H5. by destruct (event.ChangedKarma.Announce rsp).
Qed.

(** [board] queries with the limit of [board_limit] and sends the board. *)
Lemma board_run Find ctx sort w message :
  slice_from (len (Header ctx)) (Message.Content (Job ctx)) = Some message ->
  board Find ctx sort w =
  Some (tt, {| ents := ents w; cfgs := cfgs w; writes := writes w;
               calls := (calls w ++
                 [ChannelMessageSend (Message.ChannelID (Job ctx))
                    (foldl (fun b e => b +:+ board_line e) ""
                       (Find (ents w) (Message.GuildID (Job ctx)) sort
                          (board_limit message)))])%list |}).
Proof.
  intros Hslice. unfold board, after_header, FindRows.
  unfold mbind, M_bind, bind. by rewrite Hslice.
Qed.

End Runs.

End LegacyFacts.

(** ** The router *)

Module PoppleFacts.

Import popple GoStrings GoStringsFacts.

Lemma match_keyword_sound kws cmd kind body :
  match_keyword kws cmd = Some (kind, body) ->
  exists kw, (kw, kind) ∈ kws /\ cmd = kw +:+ body.
Proof.
  induction kws as [|[kw0 kind0] kws IH]; [done|]. simpl.
  destruct (HasPrefix cmd kw0) eqn:Hp.
  - intros [= <- <-]. exists kw0. split; [apply list_elem_of_here|].
    apply HasPrefix_inv in Hp as [t ->]. by rewrite drop_bytes_app.
  - intros H. destruct (IH H) as (kw & Hin & ->). exists kw.
    split; [by apply list_elem_of_further | done].
Qed.

Lemma match_keyword_hit kw kind kws tail :
  match_keyword ((kw, kind) :: kws) (kw +:+ tail) = Some (kind, tail).
Proof. simpl. by rewrite HasPrefix_app, drop_bytes_app. Qed.

Lemma match_keyword_miss kw kind kws s :
  HasPrefix s kw = false ->
  match_keyword ((kw, kind) :: kws) s = match_keyword kws s.
Proof. intros H. simpl. by rewrite H. Qed.

Lemma match_keyword_complete kw kind tail :
  (kw, kind) ∈ keywords ->
  match_keyword keywords (kw +:+ tail) = Some (kind, tail).
Proof.
  unfold keywords. rewrite !elem_of_cons, elem_of_nil.
  intros [[= -> ->]|[[= -> ->]|[[= -> ->]|[[= -> ->]|[]]]]];
    repeat (rewrite match_keyword_miss by reflexivity);
    apply match_keyword_hit.
Qed.

Lemma keyword_not_kind kw : (kw, BumpKarmaHandler) ∉ keywords.
Proof.
  unfold keywords. rewrite !elem_of_cons, elem_of_nil.
  intros [H|[H|[H|[H|[]]]]]; discriminate H.
Qed.

Lemma after_space_keyword kw kind tail :
  (kw, kind) ∈ keywords -> after_space (kw +:+ tail) = kw +:+ tail.
Proof.
  unfold keywords. rewrite !elem_of_cons, elem_of_nil.
  intros [[= -> ->]|[[= -> ->]|[[= -> ->]|[[= -> ->]|[]]]]]; reflexivity.
Qed.

Lemma Route_keyword prefix kw kind tail :
  (kw, kind) ∈ keywords ->
  Route prefix (prefix +:+ kw +:+ tail) = (kind, tail).
Proof.
  intros Hkw. unfold Route. rewrite HasPrefix_app, drop_bytes_app. cbv zeta.
  rewrite (after_space_keyword kw kind) by done.
  by rewrite (match_keyword_complete kw kind).
Qed.

Lemma Route_space_keyword prefix kw kind tail :
  (kw, kind) ∈ keywords ->
  Route prefix (prefix +:+ " " +:+ kw +:+ tail) = (kind, tail).
Proof.
  intros Hkw. unfold Route. rewrite HasPrefix_app, drop_bytes_app. cbv zeta.
  change (after_space (" " +:+ kw +:+ tail)) with (kw +:+ tail).
  by rewrite (match_keyword_complete kw kind).
Qed.

Lemma Route_other prefix text :
  fst (Route prefix text) <> BumpKarmaHandler ->
  exists kw tail,
    (kw, fst (Route prefix text)) ∈ keywords
    /\ (text = prefix +:+ kw +:+ tail \/ text = prefix +:+ " " +:+ kw +:+ tail).
Proof.
  unfold Route. destruct (HasPrefix text prefix) eqn:Hp; [|done].
  apply HasPrefix_inv in Hp as [rest ->]. rewrite drop_bytes_app. cbv zeta.
  destruct (match_keyword keywords _) as [[kind body]|] eqn:Hm; [|done].
  intros _. apply match_keyword_sound in Hm as (kw & Hin & Hcmd).
  exists kw, body. split; [done|]. unfold after_space in Hcmd.
  destruct rest as [|c r]; [left; by rewrite Hcmd|].
  destruct (Ascii.eqb_spec c " ") as [->|_]; [right|left]; by rewrite Hcmd.
Qed.

(** C2: a text that begins with the prefix followed, directly or after
    one space, by [announce], [karma], [top] or [bot] routes to Announce,
    Karma, Leaderboard or Loserboard, with what trails the keyword as its
    body; every other text, prefixed or not, routes to BumpKarma. *)
Theorem Route_classification :
  (forall prefix tail,
     fst (Route prefix (prefix +:+ "announce" +:+ tail)) = AnnounceHandler
     /\ fst (Route prefix (prefix +:+ " announce" +:+ tail)) = AnnounceHandler
     /\ fst (Route prefix (prefix +:+ "karma" +:+ tail)) = KarmaHandler
     /\ fst (Route prefix (prefix +:+ " karma" +:+ tail)) = KarmaHandler
     /\ fst (Route prefix (prefix +:+ "top" +:+ tail)) = LeaderboardHandler
     /\ fst (Route prefix (prefix +:+ " top" +:+ tail)) = LeaderboardHandler
     /\ fst (Route prefix (prefix +:+ "bot" +:+ tail)) = LoserboardHandler
     /\ fst (Route prefix (prefix +:+ " bot" +:+ tail)) = LoserboardHandler)
  /\ (forall prefix text,
        (forall kw kind tail, (kw, kind) ∈ keywords ->
           text <> prefix +:+ kw +:+ tail /\ text <> prefix +:+ " " +:+ kw +:+ tail) ->
        fst (Route prefix text) = BumpKarmaHandler)
  /\ (forall prefix text,
        HasPrefix text prefix = false -> Route prefix text = (BumpKarmaHandler, text))
  /\ Route "@colt" "@colt announce on" = (AnnounceHandler, " on")
  /\ fst (Route "bull" "bull announce") = AnnounceHandler
  /\ fst (Route "goat" "goat karma") = KarmaHandler
  /\ fst (Route "hare" "hare top") = LeaderboardHandler
  /\ fst (Route "mule" "mule bot") = LoserboardHandler
  /\ fst (Route "newt" "wolf seal oxen") = BumpKarmaHandler.
Proof.
  split.
  { intros prefix tail.
    assert (Hk : forall kw kind, (kw, kind) ∈ keywords ->
              fst (Route prefix (prefix +:+ kw +:+ tail)) = kind
              /\ fst (Route prefix (prefix +:+ " " +:+ kw +:+ tail)) = kind).
    { intros kw kind Hkw.
      by rewrite (Route_keyword prefix kw kind), (Route_space_keyword prefix kw kind). }
    unfold keywords in Hk.
    destruct (Hk "announce" AnnounceHandler) as [? ?]; [repeat first [apply list_elem_of_here | apply list_elem_of_further]|].
    destruct (Hk "karma" KarmaHandler) as [? ?]; [repeat first [apply list_elem_of_here | apply list_elem_of_further]|].
    destruct (Hk "top" LeaderboardHandler) as [? ?]; [repeat first [apply list_elem_of_here | apply list_elem_of_further]|].
    destruct (Hk "bot" LoserboardHandler) as [? ?]; [repeat first [apply list_elem_of_here | apply list_elem_of_further]|].
    done. }
  split.
  { intros prefix text Hno.
    destruct (decide (fst (Route prefix text) = BumpKarmaHandler)) as [|Hne]; [done|].
    destruct (Route_other prefix text Hne) as (kw & tail & Hin & Hform).
    destruct (Hno kw _ tail Hin) as [H1 H2]. by destruct Hform. }
  split.
  { intros prefix text Hp. unfold Route. by rewrite Hp. }
  repeat split; reflexivity.
Qed.

(** The case [TestMux] skips: two spaces after the prefix are not a
    keyword route. *)
Example Route_two_spaces :
  Route "oryx" "oryx  announce" = (BumpKarmaHandler, "  announce").
Proof. reflexivity. Qed.

End PoppleFacts.

(** ** The publisher and the consumer *)

Module BotFacts.

Import Discord popple Bot.

Section Publisher.

Variable Route : string -> string -> Kind * string.
Variable ParseAnnounceArgs : string -> bool * option Err.
Variable ParseBumpKarmaArgs : string -> list Subject * option Err.
Variable ParseKarmaArgs : string -> list string * option Err.
Variable ParseLeaderboardArgs : string -> Z * option Err.
Variable ParseLoserboardArgs : string -> Z * option Err.

(** A missing or invalid announce argument ends the handling with the
    reaction and the usage hint. *)
Lemma onAnnounce_error m body on err :
  ParseAnnounceArgs body = (on, Some err) ->
  onAnnounce ParseAnnounceArgs m body =
  {| calls := [MessageReactionAdd (Message.ChannelID m) (Message.ID m) question_mark;
               ChannelMessageSend (Message.ChannelID m) Bot.announce_usage];
     published := [] |}.
Proof. intros H. unfold onAnnounce. rewrite H. by destruct err. Qed.

Lemma onAnnounce_ok m body on :
  ParseAnnounceArgs body = (on, None) ->
  onAnnounce ParseAnnounceArgs m body = publish (request_changeannounce m on).
Proof. intros H. unfold onAnnounce. by rewrite H. Qed.

(** An invalid limit ends the handling with the usage hint. *)
Lemma onLeaderboard_invalid m body limit :
  ParseLeaderboardArgs body = (limit, Some ErrInvalidArgument) ->
  onLeaderboard ParseLeaderboardArgs m body =
  {| calls := [ChannelMessageSend (Message.ChannelID m) limit_usage];
     published := [] |}.
Proof. intros H. unfold onLeaderboard. by rewrite H. Qed.

Lemma onLoserboard_invalid m body limit :
  ParseLoserboardArgs body = (limit, Some ErrInvalidArgument) ->
  onLoserboard ParseLoserboardArgs m body =
  {| calls := [ChannelMessageSend (Message.ChannelID m) limit_usage];
     published := [] |}.
Proof. intros H. unfold onLoserboard. by rewrite H. Qed.

Lemma onLeaderboard_ok m body limit :
  ParseLeaderboardArgs body = (limit, None) ->
  onLeaderboard ParseLeaderboardArgs m body = publish (request_checkleaderboard m limit).
Proof. intros H. unfold onLeaderboard. by rewrite H. Qed.

Lemma onLoserboard_ok m body limit :
  ParseLoserboardArgs body = (limit, None) ->
  onLoserboard ParseLoserboardArgs m body = publish (request_checkloserboard m limit).
Proof. intros H. unfold onLoserboard. by rewrite H. Qed.

(** C8, on the code: when the karma arguments fail to parse and the
    question-mark reaction is added without error, the handler goes on to
    publish a RequestCheckKarma with whatever the parser returned; it
    returns early only when adding the reaction fails. *)
Theorem onKarma_publishes_after_parse_error m body who err :
  ParseKarmaArgs body = (who, Some err) ->
  onKarma ParseKarmaArgs false m body =
  {| calls := [MessageReactionAdd (Message.ChannelID m) (Message.ID m) question_mark];
     published := [request_checkkarma m who] |}
  /\ onKarma ParseKarmaArgs true m body =
     {| calls := [MessageReactionAdd (Message.ChannelID m) (Message.ID m) question_mark];
        published := [] |}.
Proof. intros H. unfold onKarma. by rewrite H. Qed.

Lemma onMessageCreate_route selfID username reactErr m action body :
  String.eqb selfID (Message.AuthorID m) = false ->
  (GoStrings.len (Message.GuildID m) =? 0)%nat = false ->
  Route ("@" +:+ username) (GoStrings.TrimSpace (Message.Content m)) = (action, body) ->
  onMessageCreate Route ParseAnnounceArgs ParseBumpKarmaArgs ParseKarmaArgs
    ParseLeaderboardArgs ParseLoserboardArgs selfID username reactErr m =
  match action with
  | AnnounceHandler => onAnnounce ParseAnnounceArgs m body
  | BumpKarmaHandler => onBumpKarma ParseBumpKarmaArgs m body
  | KarmaHandler => onKarma ParseKarmaArgs reactErr m body
  | LeaderboardHandler => onLeaderboard ParseLeaderboardArgs m body
  | LoserboardHandler => onLoserboard ParseLoserboardArgs m body
  end.
Proof. intros H1 H2 H3. unfold onMessageCreate. by rewrite H1, H2, H3. Qed.

(** Every envelope the publisher builds has exactly one field set. *)
Lemma published_one_field selfID username reactErr m e :
  e ∈ published (onMessageCreate Route ParseAnnounceArgs ParseBumpKarmaArgs
                   ParseKarmaArgs ParseLeaderboardArgs ParseLoserboardArgs
                   selfID username reactErr m) ->
  event.populated e = 1%nat.
Proof.
  unfold onMessageCreate.
  destruct (String.eqb _ _); [intros H; by apply elem_of_nil in H|].
  destruct (_ =? _)%nat; [intros H; by apply elem_of_nil in H|].
  destruct (Route _ _) as [action body].
  destruct action; unfold onAnnounce, onBumpKarma, onKarma, onLeaderboard, onLoserboard.
  - destruct (ParseAnnounceArgs body) as [on err].
    destruct (_ || _); simpl; intros H;
      [by apply elem_of_nil in H | by apply list_elem_of_singleton in H as ->].
  - destruct (ParseBumpKarmaArgs body) as [inc err]. simpl. intros H.
    by apply list_elem_of_singleton in H as ->.
  - destruct (ParseKarmaArgs body) as [who [err|]]; [destruct reactErr|]; simpl; intros H;
      try (by apply elem_of_nil in H); by apply list_elem_of_singleton in H as ->.
  - destruct (ParseLeaderboardArgs body) as [limit err].
    destruct (errors_Is _ _); simpl; intros H;
      [by apply elem_of_nil in H | by apply list_elem_of_singleton in H as ->].
  - destruct (ParseLoserboardArgs body) as [limit err].
    destruct (errors_Is _ _); simpl; intros H;
      [by apply elem_of_nil in H | by apply list_elem_of_singleton in H as ->].
Qed.

End Publisher.

(** The consumer discards an envelope exactly when none of the five
    response fields is set. *)
Lemma handle_Discarded e :
  handle e = Discarded <->
  event.CheckedKarma e = None /\ event.CheckedLeaderboard e = None
  /\ event.CheckedLoserboard e = None /\ event.ChangedAnnounce e = None
  /\ event.ChangedKarma e = None.
Proof.
  unfold handle.
  destruct (event.CheckedKarma e); [split; [done | by intros (H & _)]|].
  destruct (event.CheckedLeaderboard e); [split; [done | by intros (_ & H & _)]|].
  destruct (event.CheckedLoserboard e); [split; [done | by intros (_ & _ & H & _)]|].
  destruct (event.ChangedAnnounce e); [split; [done | by intros (_ & _ & _ & H & _)]|].
  destruct (event.ChangedKarma e) as [rsp|]; [|done].
  split; [by destruct (negb _) | by intros (_ & _ & _ & _ & H)].
Qed.

Lemma handle_empty e : event.populated e = 0%nat -> handle e = Discarded.
Proof.
  intros H. apply handle_Discarded. unfold event.populated, event.count in H.
  destruct (event.CheckedKarma e), (event.CheckedLeaderboard e),
    (event.CheckedLoserboard e), (event.ChangedAnnounce e), (event.ChangedKarma e);
    try done; lia.
Qed.

(** C9, as the code has it: every envelope the publisher builds has
    exactly one field set.  The consumer runs the case of the first
    response field that is set, in the order CheckedKarma,
    CheckedLeaderboard, CheckedLoserboard, ChangedAnnounce, ChangedKarma,
    whatever other fields are set besides, and discards an envelope
    exactly when none of these five is set, as when no field is set at
    all. *)
Theorem envelope_cardinality :
  (forall Route ParseAnnounceArgs ParseBumpKarmaArgs ParseKarmaArgs
          ParseLeaderboardArgs ParseLoserboardArgs selfID username reactErr m e,
     e ∈ published (onMessageCreate Route ParseAnnounceArgs ParseBumpKarmaArgs
                      ParseKarmaArgs ParseLeaderboardArgs ParseLoserboardArgs
                      selfID username reactErr m) ->
     event.populated e = 1%nat)
  /\ (forall e,
        handle e = Discarded <->
        event.CheckedKarma e = None /\ event.CheckedLeaderboard e = None
        /\ event.CheckedLoserboard e = None /\ event.ChangedAnnounce e = None
        /\ event.ChangedKarma e = None)
  /\ (forall e, event.populated e = 0%nat -> handle e = Discarded)
  /\ (forall e rsp,
        event.CheckedKarma e = Some rsp ->
        exists cs, handle e = Processed CaseCheckedKarma cs)
  /\ (forall e rsp,
        event.CheckedKarma e = None ->
        event.CheckedLeaderboard e = Some rsp ->
        exists cs, handle e = Processed CaseCheckedLeaderboard cs)
  /\ (forall e rsp,
        event.CheckedKarma e = None ->
        event.CheckedLeaderboard e = None ->
        event.CheckedLoserboard e = Some rsp ->
        exists cs, handle e = Processed CaseCheckedLoserboard cs)
  /\ (forall e rsp,
        event.CheckedKarma e = None ->
        event.CheckedLeaderboard e = None ->
        event.CheckedLoserboard e = None ->
        event.ChangedAnnounce e = Some rsp ->
        exists cs, handle e = Processed CaseChangedAnnounce cs)
  /\ (forall e rsp,
        event.CheckedKarma e = None ->
        event.CheckedLeaderboard e = None ->
        event.CheckedLoserboard e = None ->
        event.ChangedAnnounce e = None ->
        event.ChangedKarma e = Some rsp ->
        exists cs, handle e = Processed CaseChangedKarma cs).
Proof.
  split; [intros; by eapply published_one_field|].
  split; [exact handle_Discarded|].
  split; [exact handle_empty|].
  unfold handle. repeat split; intros e rsp.
  - intros ->. by eexists.
  - intros -> ->. by eexists.
  - intros -> -> ->. by eexists.
  - intros -> -> -> ->. by eexists.
  - intros -> -> -> -> ->. destruct (negb _); by eexists.
Qed.

(** C9, as stated, fails: an envelope with two fields set is not
    discarded; the consumer runs the case of CheckedKarma on it. *)
Lemma two_fields_not_discarded :
  event.populated Fixtures.two_fields = 2%nat
  /\ handle Fixtures.two_fields =
     Processed CaseCheckedKarma [ChannelMessageSend "c1" "alice has 3 karma. "]
  /\ handle Fixtures.two_fields <> Discarded.
Proof. split; [reflexivity|]. split; [by vm_compute | by vm_compute]. Qed.

(** C8 at a message that asks for karma and names nobody. *)
Lemma onKarma_publishes_after_parse_error_witness :
  onKarma popple.ParseKarmaArgs false (Fixtures.msg "@popple karma") "" =
  {| calls := [MessageReactionAdd "c1" "m1" question_mark];
     published := [request_checkkarma (Fixtures.msg "@popple karma") []] |}
  /\ onKarma popple.ParseKarmaArgs true (Fixtures.msg "@popple karma") "" =
     {| calls := [MessageReactionAdd "c1" "m1" question_mark];
        published := [] |}.
Proof.
  apply (onKarma_publishes_after_parse_error popple.ParseKarmaArgs
           (Fixtures.msg "@popple karma") "" [] ErrMissingArgument).
  reflexivity.
Defined.

(** The same message through the handler of the publisher, whatever the
    other parsers are. *)
Example publisher_karma_without_names :
  forall ParseAnnounceArgs ParseBumpKarmaArgs ParseLeaderboardArgs ParseLoserboardArgs,
    onMessageCreate popple.Route ParseAnnounceArgs ParseBumpKarmaArgs
      popple.ParseKarmaArgs ParseLeaderboardArgs ParseLoserboardArgs
      "bot" "popple" false (Fixtures.msg "@popple karma") =
    {| calls := [MessageReactionAdd "c1" "m1" question_mark];
       published := [request_checkkarma (Fixtures.msg "@popple karma") []] |}.
Proof. intros. reflexivity. Qed.

End BotFacts.

(** ** The limit of a board, by path *)

Module BoardFacts.

Import Discord Legacy popple Bot GoStrings.

Lemma ParseLeaderboardArgs_bad body tok rest :
  Fields body = tok :: rest ->
  (forall n, Atoi tok = Some n -> n <= 0) ->
  ParseLeaderboardArgs body = (0, Some ErrInvalidArgument).
Proof.
  intros Hf Hbad. unfold ParseLeaderboardArgs. rewrite Hf.
  destruct (Atoi tok) as [n|] eqn:Ha; [|done].
  specialize (Hbad n eq_refl).
  by rewrite (proj2 (Z.ltb_ge 0 n)).
Qed.

Lemma board_limit_bad body tok rest :
  Fields body = tok :: rest ->
  (forall n, Atoi tok = Some n -> n <= 0) ->
  board_limit body = 10.
Proof.
  intros Hf Hbad. unfold board_limit. rewrite Hf.
  destruct (Atoi tok) as [n|] eqn:Ha; [|done].
  specialize (Hbad n eq_refl).
  by rewrite (proj2 (Z.ltb_ge 0 n)).
Qed.

(** C7: with no token both paths take the default limit 10.  With a first
    token that is not a positive integer the event-protocol path fails
    with the invalid-argument error, sends the usage hint and publishes
    nothing, while the legacy [board] queries with the default limit 10.
    With a positive integer both take it. *)
Theorem board_limit_by_path :
  (forall body m,
     Fields body = [] ->
     board_limit body = 10
     /\ ParseLeaderboardArgs body = (10, None)
     /\ onLeaderboard ParseLeaderboardArgs m body
        = publish (request_checkleaderboard m 10)
     /\ onLoserboard ParseLoserboardArgs m body
        = publish (request_checkloserboard m 10))
  /\ (forall body tok rest m,
        Fields body = tok :: rest ->
        (forall n, Atoi tok = Some n -> n <= 0) ->
        board_limit body = 10
        /\ snd (ParseLeaderboardArgs body) = Some ErrInvalidArgument
        /\ onLeaderboard ParseLeaderboardArgs m body
           = {| Bot.calls := [ChannelMessageSend (Message.ChannelID m) limit_usage];
                published := [] |}
        /\ onLoserboard ParseLoserboardArgs m body
           = {| Bot.calls := [ChannelMessageSend (Message.ChannelID m) limit_usage];
                published := [] |})
  /\ (forall body tok rest n m,
        Fields body = tok :: rest ->
        Atoi tok = Some n -> 0 < n ->
        board_limit body = n
        /\ onLeaderboard ParseLeaderboardArgs m body
           = publish (request_checkleaderboard m n)
        /\ onLoserboard ParseLoserboardArgs m body
           = publish (request_checkloserboard m n))
  /\ (forall Find ctx sort w message,
        slice_from (len (Header ctx)) (Message.Content (Job ctx)) = Some message ->
        board Find ctx sort w =
        Some (tt, {| ents := ents w; cfgs := cfgs w; writes := writes w;
                     Legacy.calls := (Legacy.calls w ++
                       [ChannelMessageSend (Message.ChannelID (Job ctx))
                          (foldl (fun b e => b +:+ board_line e) ""
                             (Find (ents w) (Message.GuildID (Job ctx)) sort
                                (board_limit message)))])%list |}))
  /\ ParseLeaderboardArgs "-1" = (0, Some ErrInvalidArgument)
  /\ ParseLeaderboardArgs "" = (10, None)
  /\ ParseLeaderboardArgs "3" = (3, None)
  /\ board_limit "-1" = 10 /\ board_limit "abc" = 10 /\ board_limit "0" = 10.
Proof.
  split.
  { intros body m Hf.
    assert (Hp : ParseLeaderboardArgs body = (10, None))
      by (unfold ParseLeaderboardArgs; by rewrite Hf).
    split; [unfold board_limit; by rewrite Hf|]. split; [done|].
    split.
    - by apply BotFacts.onLeaderboard_ok.
    - by apply BotFacts.onLoserboard_ok. }
  split.
  { intros body tok rest m Hf Hbad.
    pose proof (ParseLeaderboardArgs_bad body tok rest Hf Hbad) as Hp.
    split; [by eapply board_limit_bad|]. split; [by rewrite Hp|].
    split.
    - by eapply BotFacts.onLeaderboard_invalid.
    - by eapply BotFacts.onLoserboard_invalid. }
  split.
  { intros body tok rest n m Hf Ha Hn.
    assert (Hp : ParseLeaderboardArgs body = (n, None)).
    { unfold ParseLeaderboardArgs. rewrite Hf, Ha.
      by rewrite (proj2 (Z.ltb_lt 0 n)). }
    split; [unfold board_limit; rewrite Hf, Ha; by rewrite (proj2 (Z.ltb_lt 0 n))|].
    split.
    - by apply BotFacts.onLeaderboard_ok.
    - by apply BotFacts.onLoserboard_ok. }
  split; [intros; by apply LegacyFacts.board_run|].
  repeat split; reflexivity.
Qed.

End BoardFacts.

(** ** The handlers on concrete messages *)

Module Examples.

Import Discord Legacy Fixtures LegacyFacts.

Lemma fair_map_to_list : fair map_to_list.
Proof. intros m. unfold range_order. reflexivity. Qed.

Lemma ledger_inv_singleton key v : v <> 0 -> ledger_inv (<[key := v]> ∅).
Proof.
  intros Hv key' v'. rewrite lookup_insert. case_decide; [|by rewrite lookup_empty].
  by intros [= <-].
Qed.

(** The messages of the examples are guild messages, and a list of
    subjects is checked for an empty resolved name by evaluation. *)
Lemma fixture_guild header content : Message.GuildID (Job (ctx header content)) <> "".
Proof. discriminate. Qed.

Lemma no_empty_name subs :
  bool_decide ("" ∉ resolved_names subs) = true -> "" ∉ resolved_names subs.
Proof. apply bool_decide_eq_true_1. Qed.

(** [alice++] on a ledger where alice stands at -1: the row is deleted. *)
Lemma ModKarma_zero_balance_witness :
  exists w',
    ModKarma (parsed [alice 1]) map_to_list (ctx "" "alice++")
      (world [("g1", "alice", -1)] []) = Some (tt, w')
    /\ ledger_inv (ents w')
    /\ ents w' !! ("g1", "alice") = None.
Proof.
  destruct (ModKarma_zero_balance (parsed [alice 1]) map_to_list
              (ctx "" "alice++") (world [("g1", "alice", -1)] [])
              fair_map_to_list (fixture_guild "" "alice++")
              (no_empty_name [alice 1] eq_refl))
    as (w' & ws & Hrun & Hinv & _ & _ & Hrows & _).
  - apply (ledger_inv_singleton ("g1", "alice") (-1)). lia.
  - exists w'. split; [exact Hrun|]. split; [exact Hinv|].
    assert (Hd : (1 : Z) <> 0) by lia.
    assert (Hrow := Hrows "alice" 1 eq_refl Hd).
    assert (Hzero : (GoInt.add (default 0 (ents (world [("g1", "alice", -1)] [])
                                            !! ("g1", "alice"))) 1 =? 0)%Z = true)
      by reflexivity.
    simpl Message.GuildID in Hrow. rewrite Hzero in Hrow. exact (proj1 Hrow).
Defined.

(** [alice++++ alice----]: nothing is written and nothing is sent. *)
Lemma ModKarma_merges_and_drops_witness :
  exists w' ws (lines : list (string * Z)),
    ModKarma (parsed [alice 2; alice (-2)]) map_to_list
      (ctx "" "alice++++ alice----") (world [] []) = Some (tt, w')
    /\ writes w' = ws
    /\ (forall wr, wr ∈ ws -> write_key wr <> Some ("g1", "alice"))
    /\ ("alice" ∉ lines.*1)
    /\ ents w' !! ("g1", "alice") = None.
Proof.
  destruct (ModKarma_merges_and_drops (parsed [alice 2; alice (-2)]) map_to_list
              (ctx "" "alice++++ alice----") (world [] []) fair_map_to_list
              (fixture_guild "" "alice++++ alice----")
              (no_empty_name [alice 2; alice (-2)] eq_refl))
    as (_ & w' & ws & lines & Hrun & Hwrites & _ & _ & Hzero).
  destruct (Hzero "alice") as (Hents & Hws & Hlines); [reflexivity|].
  exists w', ws, lines. split; [exact Hrun|]. split; [exact Hwrites|].
  split; [exact Hws|]. split; [exact Hlines|]. exact Hents.
Defined.

Example ModKarma_alice_nets_to_zero :
  ModKarma (parsed [alice 2; alice (-2)]) map_to_list
    (ctx "" "alice++++ alice----") (world [] []) = Some (tt, world [] []).
Proof. by vm_compute. Qed.

(** [announce off], then [alice++]: the row is written, nothing is sent;
    [announce on], then [alice++]: the row is written and the reply is
    sent. *)
Lemma announce_gating_witness :
  (exists w1 w2,
     SetAnnounce (ctx "@bot announce " "@bot announce off") (world [] []) = Some (tt, w1)
     /\ cfgs w1 !! "g1" = Some true
     /\ ModKarma (parsed [alice 1]) map_to_list (ctx "" "alice++") w1 = Some (tt, w2)
     /\ ents w2 !! ("g1", "alice") = Some 1
     /\ calls w2 = calls w1)
  /\ (exists w1 w2 lines,
        SetAnnounce (ctx "@bot announce " "@bot announce on") (world [] []) = Some (tt, w1)
        /\ cfgs w1 !! "g1" = Some false
        /\ ModKarma (parsed [alice 1]) map_to_list (ctx "" "alice++") w1 = Some (tt, w2)
        /\ ents w2 !! ("g1", "alice") = Some 1
        /\ calls w2 = (calls w1 ++ [ChannelMessageSend "c1" (render_lines "" lines)])%list).
Proof.
  split.
  - destruct (announce_gating (parsed [alice 1]) map_to_list
                (ctx "@bot announce " "@bot announce off") (ctx "" "alice++")
                "off" false (world [] []) fair_map_to_list
                (fixture_guild "" "alice++") (no_empty_name [alice 1] eq_refl)
                eq_refl eq_refl eq_refl)
      as ((w1 & w2 & lines & Hset & _ & Hcfg & Hrun & _ & Hrows & Hcalls) & _).
    + exists "alice", 1. split; [reflexivity | lia].
    + exists w1, w2. split; [exact Hset|]. split; [exact Hcfg|]. split; [exact Hrun|].
      split; [exact (Hrows "alice" 1 eq_refl)|].
      rewrite Hcalls. apply app_nil_r.
  - destruct (announce_gating (parsed [alice 1]) map_to_list
                (ctx "@bot announce " "@bot announce on") (ctx "" "alice++")
                "on" true (world [] []) fair_map_to_list
                (fixture_guild "" "alice++") (no_empty_name [alice 1] eq_refl)
                eq_refl eq_refl eq_refl)
      as ((w1 & w2 & lines & Hset & _ & Hcfg & Hrun & _ & Hrows & Hcalls) & _).
    + exists "alice", 1. split; [reflexivity | lia].
    + exists w1, w2, lines. split; [exact Hset|]. split; [exact Hcfg|].
      split; [exact Hrun|]. split; [exact (Hrows "alice" 1 eq_refl) | exact Hcalls].
Defined.

Example announce_on_sends :
  calls <$> exec (SetAnnounce (ctx "@bot announce " "@bot announce on");;
                  ModKarma (parsed [alice 1]) map_to_list (ctx "" "alice++"))
                 (world [] [])
  = Some [MessageReactionAdd "c1" "m1" "👍";
          ChannelMessageSend "c1" "alice has 1 karma."].
Proof. by vm_compute. Qed.

Example announce_off_is_silent :
  calls <$> exec (SetAnnounce (ctx "@bot announce " "@bot announce off");;
                  ModKarma (parsed [alice 1]) map_to_list (ctx "" "alice++"))
                 (world [] [])
  = Some [MessageReactionAdd "c1" "m1" "👍"].
Proof. by vm_compute. Qed.

(** A query for a name with a row and a name without, in a guild with
    announcements off. *)
Lemma CheckKarma_pure_read_witness :
  exists lines,
    CheckKarma (parsed [alice 0; {| Name := "@bob"; Karma := 0 |}]) map_to_list
      (ctx "@bot karma" "@bot karma alice @bob")
      (world [("g1", "alice", 3)] [("g1", true)])
    = Some (tt, {| ents := {[("g1", "alice") := 3]}; cfgs := {["g1" := true]};
                   writes := [];
                   calls := [ChannelMessageSend "c1" (render_lines "" lines)] |})
    /\ (forall n k,
          (n, k) ∈ lines <->
          n ∈ ["alice"; "bob"]
          /\ k = default 0 (({[("g1", "alice") := 3]} : gmap (string * string) Z)
                              !! ("g1", n))).
Proof.
  destruct (CheckKarma_pure_read (parsed [alice 0; {| Name := "@bob"; Karma := 0 |}])
              map_to_list (ctx "@bot karma" "@bot karma alice @bob")
              (world [("g1", "alice", 3)] [("g1", true)])
              " alice @bob" fair_map_to_list eq_refl)
    as (lines & Hrun & _ & Hlines).
  exists lines. split; [exact Hrun|].
  exact (Hlines (fixture_guild "@bot karma" "@bot karma alice @bob")
           (no_empty_name [alice 0; {| Name := "@bob"; Karma := 0 |}] eq_refl)).
Defined.

(** A query that names alice twice. *)
Lemma CheckKarma_names_distinct_witness :
  exists lines,
    CheckKarma (parsed [alice 0; {| Name := "@alice"; Karma := 0 |}]) map_to_list
      (ctx "@bot karma" "@bot karma alice @alice") (world [] [])
    = Some (tt, {| ents := ∅; cfgs := ∅; writes := [];
                   calls := [ChannelMessageSend "c1" (render_lines "" lines)] |})
    /\ NoDup lines.*1
    /\ (forall n, n ∈ lines.*1 <-> n ∈ ["alice"; "alice"]).
Proof.
  destruct (CheckKarma_names_distinct
              (parsed [alice 0; {| Name := "@alice"; Karma := 0 |}]) map_to_list
              (ctx "@bot karma" "@bot karma alice @alice") (world [] [])
              " alice @alice" fair_map_to_list eq_refl)
    as (lines & Hrun & Hnd & Hnames & _).
  exists lines. split; [exact Hrun|]. split; [exact Hnd | exact Hnames].
Defined.

(** C6, as stated, fails: a query that names alice twice is answered
    with one line, not with one line per mention in the order of
    mention. *)
Lemma CheckKarma_merges_duplicates :
  resolved_names [alice 0; {| Name := "@alice"; Karma := 0 |}] = ["alice"; "alice"]
  /\ calls <$> exec (CheckKarma (parsed [alice 0; {| Name := "@alice"; Karma := 0 |}])
                       map_to_list (ctx "@bot karma" "@bot karma alice @alice"))
                    (world [] [])
     = Some [ChannelMessageSend "c1" "alice has 0 karma."]
  /\ calls <$> exec (CheckKarma (parsed [alice 0; {| Name := "@alice"; Karma := 0 |}])
                       map_to_list (ctx "@bot karma" "@bot karma alice @alice"))
                    (world [] [])
     <> Some [ChannelMessageSend "c1"
                (render_lines ""
                   (map (fun n => (n, 0))
                      (resolved_names [alice 0; {| Name := "@alice"; Karma := 0 |}])))].
Proof. split; [reflexivity|]. split; by vm_compute. Qed.

End Examples.

(** ** More on [marshalSubjects] *)

Module MarshalMore.

Import GoInt GoStrings GoIntFacts GoStringsFacts MarshalFacts.

Lemma net_sum_perm n subs subs' :
  subs ≡ₚ subs' -> net_sum n subs = net_sum n subs'.
Proof.
  induction 1 as [|s l l' _ IH|s1 s2 l|l1 l2 l3 _ IH1 _ IH2]; simpl.
  - done.
  - by rewrite IH.
  - destruct (decide (resolve (Name s1) = n)), (decide (resolve (Name s2) = n)); lia.
  - by rewrite IH1.
Qed.

Lemma resolved_names_perm subs subs' :
  subs ≡ₚ subs' -> resolved_names subs ≡ₚ resolved_names subs'.
Proof. intros H. unfold resolved_names. by apply Permutation_map. Qed.

(** X1: the map [marshalSubjects] builds does not depend on the order in
    which the subjects are mentioned. *)
Theorem marshalSubjects_permutation subs subs' :
  subs ≡ₚ subs' -> marshalSubjects subs = marshalSubjects subs'.
Proof.
  intros Hp. apply map_eq. intros n. rewrite !marshalSubjects_lookup.
  rewrite (net_sum_perm n subs subs' Hp).
  destruct (decide (n ∈ resolved_names subs)) as [Hin|Hin];
    destruct (decide (n ∈ resolved_names subs')) as [Hin'|Hin']; try done.
  - exfalso. apply Hin'. by rewrite <- (resolved_names_perm subs subs' Hp).
  - exfalso. apply Hin. by rewrite (resolved_names_perm subs subs' Hp).
Qed.

Lemma marshalSubjects_permutation_witness :
  marshalSubjects [{| Name := "@alice"; Karma := 1 |}; {| Name := "bob"; Karma := -2 |};
                   {| Name := "alice"; Karma := 3 |}]
  = marshalSubjects [{| Name := "alice"; Karma := 3 |}; {| Name := "@alice"; Karma := 1 |};
                     {| Name := "bob"; Karma := -2 |}].
Proof.
  apply marshalSubjects_permutation. symmetry.
  apply (Permutation_cons_append
           [{| Name := "@alice"; Karma := 1 |}; {| Name := "bob"; Karma := -2 |}]
           {| Name := "alice"; Karma := 3 |}).
Defined.

(** X2: every net adjustment in the map is an [int]; it is the exact sum
    of the adjustments filed under the name whenever that sum is an
    [int]. *)
Theorem marshalSubjects_value subs n d :
  marshalSubjects subs !! n = Some d ->
  in_range d /\ (in_range (net_sum n subs) -> d = net_sum n subs).
Proof.
  rewrite marshalSubjects_lookup.
  destruct (decide (n ∈ resolved_names subs)); [|done].
  intros [= <-]. split; [apply wrap_in_range | apply wrap_id].
Qed.

Lemma marshalSubjects_value_witness :
  in_range 4
  /\ (in_range (net_sum "alice" [{| Name := "@alice"; Karma := 1 |};
                                 {| Name := "alice"; Karma := 3 |}])
      -> 4 = net_sum "alice" [{| Name := "@alice"; Karma := 1 |};
                              {| Name := "alice"; Karma := 3 |}]).
Proof.
  apply (marshalSubjects_value
           [{| Name := "@alice"; Karma := 1 |}; {| Name := "alice"; Karma := 3 |}]
           "alice" 4).
  reflexivity.
Defined.

Lemma resolve_nonempty name : name <> "" -> resolve name <> "".
Proof.
  destruct name as [|c [|d s]]; [done | by rewrite resolve_single |].
  rewrite resolve_cons2. by destruct (Ascii.eqb c "@").
Qed.

Lemma marshalSubjects_keys subs :
  (map_to_list (marshalSubjects subs)).*1 ⊆ resolved_names subs.
Proof.
  intros n ([n' d] & -> & Hin)%list_elem_of_fmap.
  apply elem_of_map_to_list in Hin. apply marshalSubjects_is_Some. by exists d.
Qed.

(** X3: the map has at most one entry per subject, and no entry under
    the empty name unless a subject has the empty name. *)
Theorem marshalSubjects_names subs :
  (size (marshalSubjects subs) <= length subs)%nat
  /\ ((forall s, s ∈ subs -> Name s <> "") -> marshalSubjects subs !! "" = None).
Proof.
  split.
  - rewrite <- length_map_to_list, <- (length_fmap fst (map_to_list _)).
    replace (length subs) with (length (resolved_names subs))
      by (unfold resolved_names; apply length_map).
    apply submseteq_length, NoDup_submseteq;
      [apply NoDup_fst_map_to_list | apply marshalSubjects_keys].
  - intros Hne. rewrite marshalSubjects_lookup.
    destruct (decide ("" ∈ resolved_names subs)) as [Hin|]; [|done].
    apply elem_of_resolved_names in Hin as (s & Hs & Hr).
    by apply (resolve_nonempty (Name s)) in Hr; [|apply Hne].
Qed.

End MarshalMore.

(** ** More on the legacy handlers *)

Module LegacyMore.

Import Discord Legacy GoInt GoStrings GoIntFacts GoStringsFacts MarshalFacts LegacyFacts.

Lemma zero_order g order : forall e,
  Forall (fun kv => snd kv = 0) order ->
  apply_deltas g order e = e /\ mutations g order e = []
  /\ ledger_writes g order e = [].
Proof.
  induction order as [|[n d] order IH]; intros e Hz; [done|].
  apply Forall_cons in Hz as [Hd Hz]. simpl in Hd. subst d.
  rewrite apply_deltas_cons. simpl mutations. simpl ledger_writes.
  rewrite partial_alter_id by done. by apply IH.
Qed.

Lemma mutations_NoDup g order e : NoDup order.*1 -> NoDup (mutations g order e).
Proof.
  intros Hnd. apply (NoDup_fmap_1 fst). rewrite mutations_names.
  eapply sublist_NoDup; [exact Hnd|]. apply fmap_sublist, sublist_filter.
Qed.

Section More.

Variable ParseSubjects : string -> list Subject.

(** The world a run of [ModKarma] ends in. *)
Lemma ModKarma_exact range ctx w :
  ModKarma ParseSubjects range ctx w =
  Some (tt,
    match mutations (Message.GuildID (Job ctx))
            (range (marshalSubjects (ParseSubjects (Message.Content (Job ctx)))))
            (ents w)
    with
    | [] =>
        {| ents := apply_deltas (Message.GuildID (Job ctx))
                     (range (marshalSubjects (ParseSubjects (Message.Content (Job ctx)))))
                     (ents w);
           cfgs := cfgs w;
           writes := (writes w ++
                      ledger_writes (Message.GuildID (Job ctx))
                        (range (marshalSubjects (ParseSubjects (Message.Content (Job ctx)))))
                        (ents w))%list;
           calls := calls w |}
    | _ :: _ =>
        {| ents := apply_deltas (Message.GuildID (Job ctx))
                     (range (marshalSubjects (ParseSubjects (Message.Content (Job ctx)))))
                     (ents w);
           cfgs := match cfgs w !! Message.GuildID (Job ctx) with
                   | Some _ => cfgs w
                   | None => <[Message.GuildID (Job ctx) := false]> (cfgs w)
                   end;
           writes := ((writes w ++
                       ledger_writes (Message.GuildID (Job ctx))
                         (range (marshalSubjects (ParseSubjects (Message.Content (Job ctx)))))
                         (ents w))
                      ++ match cfgs w !! Message.GuildID (Job ctx) with
                         | Some _ => []
                         | None => [CreateConfig (Message.GuildID (Job ctx))]
                         end)%list;
           calls := (calls w ++
                     if default false (cfgs w !! Message.GuildID (Job ctx)) then []
                     else [ChannelMessageSend (Message.ChannelID (Job ctx))
                             (render_lines ""
                                (mutations (Message.GuildID (Job ctx))
                                   (range (marshalSubjects
                                             (ParseSubjects (Message.Content (Job ctx)))))
                                   (ents w)))])%list |}
    end).
Proof.
  unfold ModKarma.
  set (g := Message.GuildID (Job ctx)).
  set (order := range _).
  unfold mbind, M_bind, bind.
  destruct (ModKarma_loop g order "" "" w) as [sep' ->].
  rewrite append_nil_l. cbn [fst].
  destruct (mutations g order (ents w)) as [|line lines] eqn:Hlines; [done|].
  rewrite <- Hlines.
  assert (Hlen : (len (render_lines "" (mutations g order (ents w))) =? 0)%nat = false).
  { apply Nat.eqb_neq. rewrite len_render_lines, Hlines. done. }
  rewrite Hlen. unfold FirstOrCreateConfig. cbn [cfgs].
  destruct (cfgs w !! g) as [[|]|] eqn:Hcfg; cbn [negb Config.NoAnnounce from_option id];
    unfold mret, M_ret, ret, call; cbn [ents cfgs writes calls];
    by rewrite ?app_nil_r.
Qed.

(** The ledger after a run, entry by entry. *)
Lemma ModKarma_entry range ctx w :
  fair range ->
  exists w',
    ModKarma ParseSubjects range ctx w = Some (tt, w')
    /\ forall g n,
         ents w' !! (g, n) =
         if decide (g = Message.GuildID (Job ctx)) then
           match marshalSubjects (ParseSubjects (Message.Content (Job ctx))) !! n with
           | Some d => bump_value d (ents w !! (g, n))
           | None => ents w !! (g, n)
           end
         else ents w !! (g, n).
Proof.
  intros Hfair. rewrite ModKarma_exact. eexists. split; [reflexivity|].
  set (g0 := Message.GuildID (Job ctx)). set (m := marshalSubjects _).
  intros g n.
  assert (Hl : apply_deltas g0 (range m) (ents w) !! (g, n) =
               if decide (g = g0) then
                 match m !! n with
                 | Some d => bump_value d (ents w !! (g, n))
                 | None => ents w !! (g, n)
                 end
               else ents w !! (g, n)).
  { case_decide as Hg.
    - subst g. destruct (m !! n) as [d|] eqn:Hn.
      + apply apply_deltas_present; [by apply fair_NoDup | by apply fair_elem].
      + apply apply_deltas_absent. by apply fair_absent.
    - by apply apply_deltas_other_guild. }
  by destruct (mutations g0 (range m) (ents w)).
Qed.

(** X4: the order in which Go visits the map does not show in the store:
    two runs of [ModKarma] on the same guild message, whose subjects all
    have a non-empty resolved name, and the same world end with the same
    entities and configurations, and their replies hold the same lines,
    possibly in another order. *)
Theorem ModKarma_order_independent range1 range2 ctx w :
  fair range1 -> fair range2 ->
  Message.GuildID (Job ctx) <> "" ->
  "" ∉ resolved_names (ParseSubjects (Message.Content (Job ctx))) ->
  exists w1 w2 lines1 lines2,
    ModKarma ParseSubjects range1 ctx w = Some (tt, w1)
    /\ ModKarma ParseSubjects range2 ctx w = Some (tt, w2)
    /\ ents w1 = ents w2
    /\ cfgs w1 = cfgs w2
    /\ lines1 ≡ₚ lines2
    /\ calls w1 =
       (calls w ++
        match lines1 with
        | [] => []
        | _ => if default false (cfgs w !! Message.GuildID (Job ctx)) then []
               else [ChannelMessageSend (Message.ChannelID (Job ctx))
                       (render_lines "" lines1)]
        end)%list
    /\ calls w2 =
       (calls w ++
        match lines2 with
        | [] => []
        | _ => if default false (cfgs w !! Message.GuildID (Job ctx)) then []
               else [ChannelMessageSend (Message.ChannelID (Job ctx))
                       (render_lines "" lines2)]
        end)%list.
Proof.
  intros Hf1 Hf2 _ _.
  destruct (ModKarma_entry range1 ctx w Hf1) as (w1 & Hrun1 & He1).
  destruct (ModKarma_entry range2 ctx w Hf2) as (w2 & Hrun2 & He2).
  pose proof Hrun1 as Hx1. pose proof Hrun2 as Hx2.
  rewrite ModKarma_exact in Hx1, Hx2.
  set (g0 := Message.GuildID (Job ctx)) in *.
  set (m := marshalSubjects _) in *.
  assert (Hperm : mutations g0 (range1 m) (ents w) ≡ₚ mutations g0 (range2 m) (ents w)).
  { apply NoDup_Permutation; [by apply mutations_NoDup, fair_NoDup ..|].
    intros [n v]. rewrite !mutations_elem by by apply fair_NoDup.
    split; intros (d & Hin & H); exists d; (split; [|done]).
    - apply (fair_elem range2 m n d Hf2). by apply (fair_elem range1 m n d Hf1).
    - apply (fair_elem range1 m n d Hf1). by apply (fair_elem range2 m n d Hf2). }
  exists w1, w2, (mutations g0 (range1 m) (ents w)), (mutations g0 (range2 m) (ents w)).
  split; [done|]. split; [done|].
  split.
  { apply map_eq. intros [g n]. by rewrite He1, He2. }
  destruct (mutations g0 (range1 m) (ents w)) as [|l1 ls1] eqn:H1;
    destruct (mutations g0 (range2 m) (ents w)) as [|l2 ls2] eqn:H2.
  - injection Hx1 as <-. injection Hx2 as <-. cbn [cfgs calls].
    by rewrite app_nil_r.
  - by apply Permutation_nil_cons in Hperm.
  - symmetry in Hperm. by apply Permutation_nil_cons in Hperm.
  - injection Hx1 as <-. injection Hx2 as <-. cbn [cfgs calls]. done.
Qed.

(** X5: a message whose net adjustments are all zero leaves the world as
    it is: no row is read or written, no configuration is created and
    nothing is sent. *)
Theorem ModKarma_all_zero range ctx w :
  fair range ->
  (forall n d,
     marshalSubjects (ParseSubjects (Message.Content (Job ctx))) !! n = Some d ->
     d = 0) ->
  ModKarma ParseSubjects range ctx w = Some (tt, w).
Proof.
  intros Hfair Hzero. rewrite ModKarma_exact.
  set (g0 := Message.GuildID (Job ctx)). set (m := marshalSubjects _) in *.
  destruct (zero_order g0 (range m) (ents w)) as (-> & -> & ->).
  - apply Forall_forall. intros [n d] Hin. simpl.
    apply (Hzero n d). by apply (fair_elem range m n d).
  - by rewrite app_nil_r, World_eta.
Qed.

(** X6: a guild (a non-empty guild ID) without a configuration row has
    announcements on: the first [ModKarma] that mutates its ledger
    creates the row with [NoAnnounce = false] and sends the reply.  A row
    that exists is left as it is, and so is every other guild's. *)
Theorem ModKarma_config range ctx w :
  fair range ->
  Message.GuildID (Job ctx) <> "" ->
  (exists n d,
     marshalSubjects (ParseSubjects (Message.Content (Job ctx))) !! n = Some d
     /\ d <> 0) ->
  exists w',
    ModKarma ParseSubjects range ctx w = Some (tt, w')
    /\ cfgs w' !! Message.GuildID (Job ctx)
       = Some (default false (cfgs w !! Message.GuildID (Job ctx)))
    /\ (forall g, g <> Message.GuildID (Job ctx) -> cfgs w' !! g = cfgs w !! g)
    /\ (cfgs w !! Message.GuildID (Job ctx) = None ->
        CreateConfig (Message.GuildID (Job ctx)) ∈ writes w'
        /\ exists reply,
             calls w' =
             (calls w ++ [ChannelMessageSend (Message.ChannelID (Job ctx)) reply])%list).
Proof.
  intros Hfair _ (n0 & d0 & Hn0 & Hd0). rewrite ModKarma_exact.
  set (g0 := Message.GuildID (Job ctx)). set (m := marshalSubjects _) in *.
  assert (Hin : (n0, add (default 0 (ents w !! (g0, n0))) d0)
                ∈ mutations g0 (range m) (ents w)).
  { apply mutations_elem; [by apply fair_NoDup|]. exists d0.
    split; [by apply fair_elem | done]. }
  destruct (mutations g0 (range m) (ents w)) as [|l ls];
    [by apply elem_of_nil in Hin|].
  eexists. split; [reflexivity|]. cbn [cfgs writes calls].
  destruct (cfgs w !! g0) as [b|] eqn:Hcfg; cbn [from_option id].
  - split; [done|]. split; [done|]. done.
  - split; [apply lookup_insert_eq|].
    split; [intros g Hg; by apply lookup_insert_ne|].
    intros _. split; [|by eexists].
    apply elem_of_app. right. apply list_elem_of_here.
Qed.

Lemma bump_bump d1 d2 (old : option Z) :
  (forall k, old = Some k -> k <> 0 /\ in_range k) ->
  bump_value d2 (bump_value d1 old) =
  if (wrap (default 0 old + d1 + d2) =? 0)%Z then None
  else Some (wrap (default 0 old + d1 + d2)).
Proof.
  intros Hold. unfold bump_value, add.
  destruct (Z.eqb_spec d1 0) as [->|Hd1]; destruct (Z.eqb_spec d2 0) as [->|Hd2].
  - rewrite !Z.add_0_r. destruct old as [k|]; simpl.
    + destruct (Hold k eq_refl) as [Hk Hr]. rewrite (wrap_id k Hr).
      by rewrite (proj2 (Z.eqb_neq k 0) Hk).
    + reflexivity.
  - by rewrite Z.add_0_r.
  - rewrite Z.add_0_r. by destruct (wrap (default 0 old + d1) =? 0)%Z.
  - destruct (Z.eqb_spec (wrap (default 0 old + d1)) 0) as [Hz|Hz]; simpl.
    + rewrite <- (wrap_add_l (default 0 old + d1) d2), Hz. done.
    + by rewrite wrap_add_l.
Qed.

(** X7: adjustments accumulate across messages.  After two runs, on
    messages of one guild whose subjects all have a non-empty resolved
    name, that adjust a name by [d1] and then by [d2], its row holds the
    wrapped sum of the old karma and both adjustments, and is absent when
    that sum is zero; in particular adjustments that cancel restore the
    row. *)
Theorem ModKarma_accumulates range1 range2 ctx1 ctx2 w n d1 d2 :
  fair range1 -> fair range2 ->
  Message.GuildID (Job ctx1) <> "" ->
  "" ∉ resolved_names (ParseSubjects (Message.Content (Job ctx1))) ->
  "" ∉ resolved_names (ParseSubjects (Message.Content (Job ctx2))) ->
  Message.GuildID (Job ctx1) = Message.GuildID (Job ctx2) ->
  (forall k, ents w !! (Message.GuildID (Job ctx1), n) = Some k ->
             k <> 0 /\ in_range k) ->
  marshalSubjects (ParseSubjects (Message.Content (Job ctx1))) !! n = Some d1 ->
  marshalSubjects (ParseSubjects (Message.Content (Job ctx2))) !! n = Some d2 ->
  exists w1 w2,
    ModKarma ParseSubjects range1 ctx1 w = Some (tt, w1)
    /\ ModKarma ParseSubjects range2 ctx2 w1 = Some (tt, w2)
    /\ ents w2 !! (Message.GuildID (Job ctx1), n)
       = (if (wrap (default 0 (ents w !! (Message.GuildID (Job ctx1), n)) + d1 + d2) =? 0)%Z
          then None
          else Some (wrap (default 0 (ents w !! (Message.GuildID (Job ctx1), n)) + d1 + d2)))
    /\ (wrap (d1 + d2) = 0 ->
        ents w2 !! (Message.GuildID (Job ctx1), n)
        = ents w !! (Message.GuildID (Job ctx1), n)).
Proof.
  intros Hf1 Hf2 _ _ _ Hg Hold Hd1 Hd2.
  destruct (ModKarma_entry range1 ctx1 w Hf1) as (w1 & Hrun1 & He1).
  destruct (ModKarma_entry range2 ctx2 w1 Hf2) as (w2 & Hrun2 & He2).
  exists w1, w2. split; [done|]. split; [done|].
  assert (Hfinal : ents w2 !! (Message.GuildID (Job ctx1), n) =
            bump_value d2 (bump_value d1 (ents w !! (Message.GuildID (Job ctx1), n)))).
  { rewrite He2, <- Hg, decide_True, Hd2 by done.
    by rewrite He1, decide_True, Hd1 by done. }
  rewrite Hfinal, bump_bump by done. split; [done|].
  intros Hcancel.
  replace (default 0 (ents w !! (Message.GuildID (Job ctx1), n)) + d1 + d2)
    with ((d1 + d2) + default 0 (ents w !! (Message.GuildID (Job ctx1), n))) by lia.
  rewrite <- wrap_add_l, Hcancel, Z.add_0_l.
  destruct (ents w !! (Message.GuildID (Job ctx1), n)) as [k|] eqn:Hk; simpl.
  - destruct (Hold k eq_refl) as [Hk0 Hr]. rewrite (wrap_id k Hr).
    by rewrite (proj2 (Z.eqb_neq k 0) Hk0).
  - reflexivity.
Qed.

(** X8: what [ModKarma] announces is what [CheckKarma] reports next: in
    a guild, with every subject and every requested name non-empty, for a
    name adjusted by a non-zero [d], a query that names it is answered
    with the karma of the reply, 0 when the row was deleted. *)
Theorem CheckKarma_after_ModKarma range1 range2 ctxM ctxC message w n d :
  fair range1 -> fair range2 ->
  Message.GuildID (Job ctxM) <> "" ->
  "" ∉ resolved_names (ParseSubjects (Message.Content (Job ctxM))) ->
  "" ∉ resolved_names (ParseSubjects message) ->
  Message.GuildID (Job ctxM) = Message.GuildID (Job ctxC) ->
  slice_from (len (Header ctxC)) (Message.Content (Job ctxC)) = Some message ->
  marshalSubjects (ParseSubjects (Message.Content (Job ctxM))) !! n = Some d ->
  d <> 0 ->
  n ∈ resolved_names (ParseSubjects message) ->
  exists w1 announced reported,
    ModKarma ParseSubjects range1 ctxM w = Some (tt, w1)
    /\ (exists sent,
          calls w1 = (calls w ++ sent)%list
          /\ forall c, c ∈ sent ->
               c = ChannelMessageSend (Message.ChannelID (Job ctxM))
                     (render_lines "" announced))
    /\ CheckKarma ParseSubjects range2 ctxC w1 =
       Some (tt, {| ents := ents w1; cfgs := cfgs w1; writes := writes w1;
                    calls := (calls w1 ++
                      [ChannelMessageSend (Message.ChannelID (Job ctxC))
                         (render_lines "" reported)])%list |})
    /\ (n, add (default 0 (ents w !! (Message.GuildID (Job ctxM), n))) d) ∈ announced
    /\ (n, add (default 0 (ents w !! (Message.GuildID (Job ctxM), n))) d) ∈ reported.
Proof.
  intros Hf1 Hf2 _ _ _ Hg Hslice Hd Hd0 Hq.
  destruct (ModKarma_entry range1 ctxM w Hf1) as (w1 & Hrun & He).
  pose proof Hrun as Hx. rewrite ModKarma_exact in Hx.
  set (g0 := Message.GuildID (Job ctxM)) in *.
  set (m := marshalSubjects (ParseSubjects (Message.Content (Job ctxM)))) in *.
  set (v := add (default 0 (ents w !! (g0, n))) d).
  exists w1, (mutations g0 (range1 m) (ents w)),
    (lookups (Message.GuildID (Job ctxC))
       (range2 (marshalSubjects (ParseSubjects message))) (ents w1)).
  split; [done|].
  assert (Hin : (n, v) ∈ mutations g0 (range1 m) (ents w)).
  { apply mutations_elem; [by apply fair_NoDup|]. exists d.
    split; [by apply fair_elem | done]. }
  split.
  { destruct (mutations g0 (range1 m) (ents w)) as [|l ls] eqn:Hm.
    - by apply elem_of_nil in Hin.
    - injection Hx as <-. cbn [calls]. eexists. split; [reflexivity|].
      intros c Hc. destruct (default false (cfgs w !! g0));
        [by apply elem_of_nil in Hc | by apply list_elem_of_singleton in Hc]. }
  split; [by apply CheckKarma_run|]. split; [done|].
  apply lookups_elem. split; [by apply fair_names|].
  rewrite <- Hg, He, decide_True, Hd, bump_value_nonzero by done.
  fold v. by destruct (Z.eqb_spec v 0) as [->|].
Qed.

(** X9: the last announce setting wins, and setting it never touches the
    ledger: after two runs of [SetAnnounce] in a guild (a non-empty guild
    ID) the stored [NoAnnounce] is the negation of the second setting,
    every other guild's row is as it was, and so are the entities. *)
Theorem SetAnnounce_twice ctx1 ctx2 message1 message2 on1 on2 w :
  Message.GuildID (Job ctx1) <> "" ->
  Message.GuildID (Job ctx1) = Message.GuildID (Job ctx2) ->
  slice_from (len (Header ctx1)) (Message.Content (Job ctx1)) = Some message1 ->
  slice_from (len (Header ctx2)) (Message.Content (Job ctx2)) = Some message2 ->
  announce_setting message1 = Some on1 ->
  announce_setting message2 = Some on2 ->
  exists w1 w2,
    SetAnnounce ctx1 w = Some (tt, w1)
    /\ SetAnnounce ctx2 w1 = Some (tt, w2)
    /\ cfgs w2 = <[Message.GuildID (Job ctx2) := negb on2]> (cfgs w)
    /\ ents w2 = ents w
    /\ forall wr, wr ∈ writes w2 -> wr ∈ writes w \/ write_key wr = None.
Proof.
  intros _ Hg Hs1 Hs2 Ho1 Ho2.
  rewrite (SetAnnounce_run ctx1 w message1 on1 Hs1 Ho1).
  eexists. eexists. split; [reflexivity|].
  rewrite (SetAnnounce_run ctx2 _ message2 on2 Hs2 Ho2). split; [reflexivity|].
  cbn [ents cfgs writes]. rewrite Hg, insert_insert_eq.
  split; [done|]. split; [done|].
  intros wr Hwr. rewrite lookup_insert_eq in Hwr.
  rewrite !elem_of_app in Hwr.
  destruct Hwr as [[Hwr|[Hwr|Hwr]]|[Hwr|Hwr]]; [by left|right..].
  - destruct (cfgs w !! _); [by apply elem_of_nil in Hwr|].
    by apply list_elem_of_singleton in Hwr as ->.
  - by apply list_elem_of_singleton in Hwr as ->.
  - by apply elem_of_nil in Hwr.
  - by apply list_elem_of_singleton in Hwr as ->.
Qed.

(** X10: a message that starts with none of [on], [yes], [off], [no]
    changes nothing: no configuration row is created or saved, and the
    only call is the reply with the usage. *)
Theorem SetAnnounce_no_setting ctx message w :
  slice_from (len (Header ctx)) (Message.Content (Job ctx)) = Some message ->
  HasPrefix message "on" = false -> HasPrefix message "yes" = false ->
  HasPrefix message "off" = false -> HasPrefix message "no" = false ->
  SetAnnounce ctx w =
  Some (tt, {| ents := ents w; cfgs := cfgs w; writes := writes w;
               calls := (calls w ++
                 [ChannelMessageSendReply (Message.ChannelID (Job ctx))
                    Legacy.announce_usage])%list |}).
Proof.
  intros Hs H1 H2 H3 H4. apply (SetAnnounce_usage ctx w message Hs).
  unfold announce_setting. by rewrite H1, H2, H3, H4.
Qed.

(** X11: a header longer than the content makes the slice
    [content[len(header):]] panic: [CheckKarma], [SetAnnounce] and both
    boards stop there, before any read, write or call. *)
Theorem header_past_content Find range ctx w :
  (len (Message.Content (Job ctx)) < len (Header ctx))%nat ->
  CheckKarma ParseSubjects range ctx w = None
  /\ SetAnnounce ctx w = None
  /\ Legacy.Bot Find ctx w = None
  /\ Top Find ctx w = None.
Proof.
  intros Hlen.
  assert (Hs : slice_from (len (Header ctx)) (Message.Content (Job ctx)) = None).
  { unfold slice_from. by rewrite (proj2 (Nat.leb_gt _ _) Hlen). }
  split; [by apply CheckKarma_panic|].
  unfold SetAnnounce, Legacy.Bot, Top, board, after_header, mbind, M_bind, bind.
  by rewrite Hs.
Qed.

(** X19: a query that names nobody is answered all the same, with an
    empty message. *)
Theorem CheckKarma_no_names range ctx message w :
  slice_from (len (Header ctx)) (Message.Content (Job ctx)) = Some message ->
  fair range ->
  ParseSubjects message = [] ->
  CheckKarma ParseSubjects range ctx w =
  Some (tt, {| ents := ents w; cfgs := cfgs w; writes := writes w;
               calls := (calls w ++
                 [ChannelMessageSend (Message.ChannelID (Job ctx)) ""])%list |}).
Proof.
  intros Hs Hfair Hnone. rewrite (CheckKarma_run ParseSubjects range ctx w message Hs).
  rewrite Hnone.
  assert (Hempty : range (marshalSubjects []) = []).
  { pose proof (Hfair (marshalSubjects [])) as H. unfold range_order in H.
    change (marshalSubjects []) with (∅ : gmap string Z) in H.
    rewrite map_to_list_empty in H. by apply Permutation_nil_r in H. }
  by rewrite Hempty.
Qed.


End More.

Lemma Atoi_in_range s v : Atoi s = Some v -> in_range v.
Proof.
  unfold Atoi.
  destruct (match s with
            | String c r =>
                if Ascii.eqb c "-" then (true, r)
                else if Ascii.eqb c "+" then (false, r) else (false, s)
            | EmptyString => (false, s)
            end) as [neg ds].
  destruct ds as [|c ds]; [done|].
  destruct (digits_value (String c ds) 0) as [n|]; [|done].
  destruct ((min_int <=? (if neg then - n else n))
            && ((if neg then - n else n) <=? max_int))%Z eqn:Hr; [|done].
  intros [= <-]. apply andb_true_iff in Hr as [H1 H2].
  unfold in_range. lia.
Qed.

(** X12: the limit [board] queries with is always a positive [int]: a
    missing, malformed, zero or negative argument gives 10, never a
    non-positive limit. *)
Theorem board_limit_positive message :
  0 < board_limit message <= max_int.
Proof.
  unfold board_limit. destruct (Fields message) as [|part0 parts].
  - unfold max_int. lia.
  - destruct (Atoi part0) as [limitArg|] eqn:Ha; [|unfold max_int; lia].
    destruct (Z.ltb_spec 0 limitArg); [|unfold max_int; lia].
    apply Atoi_in_range in Ha. unfold in_range in Ha. lia.
Qed.

End LegacyMore.

(** ** More on the publisher and the consumer *)

Module BotMore.

Import Discord popple Bot GoStringsFacts LegacyFacts.

Section Publisher.

Variable Route : string -> string -> Kind * string.
Variable ParseAnnounceArgs : string -> bool * option Err.
Variable ParseBumpKarmaArgs : string -> list Subject * option Err.
Variable ParseKarmaArgs : string -> list string * option Err.
Variable ParseLeaderboardArgs : string -> Z * option Err.
Variable ParseLoserboardArgs : string -> Z * option Err.

(** What handling one message can produce, case by case. *)
Lemma onMessageCreate_cases selfID username reactErr m :
  let out := onMessageCreate Route ParseAnnounceArgs ParseBumpKarmaArgs
               ParseKarmaArgs ParseLeaderboardArgs ParseLoserboardArgs
               selfID username reactErr m in
  (published out = [] /\ (length (calls out) <= 2)%nat)
  \/ (exists e,
        published out = [e] /\ (length (calls out) <= 1)%nat
        /\ ((exists on, e = request_changeannounce m on)
            \/ (exists increments, e = request_bumpkarma m increments)
            \/ (exists who, e = request_checkkarma m who)
            \/ (exists limit, e = request_checkleaderboard m limit)
            \/ (exists limit, e = request_checkloserboard m limit))).
Proof.
  unfold onMessageCreate.
  destruct (String.eqb _ _); [left; simpl; split; [done | lia]|].
  destruct (_ =? _)%nat; [left; simpl; split; [done | lia]|].
  destruct (Route _ _) as [action body].
  destruct action; unfold onAnnounce, onBumpKarma, onKarma, onLeaderboard, onLoserboard.
  - destruct (ParseAnnounceArgs body) as [on err].
    destruct (_ || _); [left; simpl; split; [done | lia]|].
    right. eexists. split; [reflexivity|]. split; [simpl; lia|]. left. by eexists.
  - destruct (ParseBumpKarmaArgs body) as [inc err].
    right. eexists. split; [reflexivity|]. split; [simpl; lia|].
    right. left. by eexists.
  - destruct (ParseKarmaArgs body) as [who [err|]]; [destruct reactErr|].
    + left; simpl; split; [done | lia].
    + right. eexists. split; [reflexivity|]. split; [simpl; lia|].
      right. right. left. by eexists.
    + right. eexists. split; [reflexivity|]. split; [simpl; lia|].
      right. right. left. by eexists.
  - destruct (ParseLeaderboardArgs body) as [limit err].
    destruct (errors_Is _ _); [left; simpl; split; [done | lia]|].
    right. eexists. split; [reflexivity|]. split; [simpl; lia|].
    right. right. right. left. by eexists.
  - destruct (ParseLoserboardArgs body) as [limit err].
    destruct (errors_Is _ _); [left; simpl; split; [done | lia]|].
    right. eexists. split; [reflexivity|]. split; [simpl; lia|].
    right. right. right. right. by eexists.
Qed.

(** X13: handling one chat message publishes at most one envelope and
    makes at most two calls on the session.  The envelope is a request
    built from that message: it carries the message's own channel (and,
    for an announce change, the message itself) as destination and the
    message's guild as server. *)
Theorem publisher_one_request selfID username reactErr m :
  (length (published (onMessageCreate Route ParseAnnounceArgs ParseBumpKarmaArgs
                        ParseKarmaArgs ParseLeaderboardArgs ParseLoserboardArgs
                        selfID username reactErr m)) <= 1)%nat
  /\ (length (calls (onMessageCreate Route ParseAnnounceArgs ParseBumpKarmaArgs
                       ParseKarmaArgs ParseLeaderboardArgs ParseLoserboardArgs
                       selfID username reactErr m)) <= 2)%nat
  /\ forall e,
       e ∈ published (onMessageCreate Route ParseAnnounceArgs ParseBumpKarmaArgs
                        ParseKarmaArgs ParseLeaderboardArgs ParseLoserboardArgs
                        selfID username reactErr m) ->
       (exists on, e = request_changeannounce m on)
       \/ (exists increments, e = request_bumpkarma m increments)
       \/ (exists who, e = request_checkkarma m who)
       \/ (exists limit, e = request_checkleaderboard m limit)
       \/ (exists limit, e = request_checkloserboard m limit).
Proof.
  destruct (onMessageCreate_cases selfID username reactErr m)
    as [[Hp Hc]|(e & Hp & Hc & He)]; rewrite Hp.
  - split; [simpl; lia|]. split; [done|]. intros e He. by apply elem_of_nil in He.
  - split; [simpl; lia|]. split; [lia|]. intros e' He'.
    by apply list_elem_of_singleton in He' as ->.
Qed.

(** X14: the bot's own messages and direct messages are dropped before
    they are routed: nothing is parsed, sent or published, whatever the
    text. *)
Theorem publisher_ignores selfID username reactErr m :
  selfID = Message.AuthorID m \/ Message.GuildID m = "" ->
  onMessageCreate Route ParseAnnounceArgs ParseBumpKarmaArgs ParseKarmaArgs
    ParseLeaderboardArgs ParseLoserboardArgs selfID username reactErr m
  = nothing.
Proof.
  unfold onMessageCreate. intros [->| ->].
  - by rewrite String.eqb_refl.
  - simpl. by destruct (String.eqb _ _).
Qed.

(** X16: the consumer has no case for a request: every envelope the
    publisher builds is discarded by [handle], so feeding the consumer
    what the publisher published makes no call. *)
Theorem consumer_discards_requests selfID username reactErr m :
  (forall e,
     e ∈ published (onMessageCreate Route ParseAnnounceArgs ParseBumpKarmaArgs
                      ParseKarmaArgs ParseLeaderboardArgs ParseLoserboardArgs
                      selfID username reactErr m) ->
     handle e = Discarded)
  /\ consumer (Some <$> published
                 (onMessageCreate Route ParseAnnounceArgs ParseBumpKarmaArgs
                    ParseKarmaArgs ParseLeaderboardArgs ParseLoserboardArgs
                    selfID username reactErr m)) = [].
Proof.
  destruct (onMessageCreate_cases selfID username reactErr m)
    as [[Hp Hc]|(e & Hp & Hc & He)]; rewrite Hp.
  - split; [|done]. intros e He. by apply elem_of_nil in He.
  - assert (Hd : handle e = Discarded).
    { destruct He as [[? ->]|[[? ->]|[[? ->]|[[? ->]|[? ->]]]]]; reflexivity. }
    split.
    + intros e' He'. by apply list_elem_of_singleton in He' as ->.
    + simpl. unfold consumer. simpl. by rewrite Hd.
Qed.

End Publisher.

(** X15: which parse errors stop the publisher.  The BumpKarma case
    drops the parser's error and publishes whatever it returned.  The
    board cases stop on the invalid-argument error only: with the
    missing-argument error they publish the returned limit.  The
    announce case stops on either error. *)
Theorem parse_errors_by_case :
  (forall ParseBumpKarmaArgs m body,
     onBumpKarma ParseBumpKarmaArgs m body
     = publish (request_bumpkarma m (fst (ParseBumpKarmaArgs body))))
  /\ (forall ParseLeaderboardArgs m body limit,
        ParseLeaderboardArgs body = (limit, Some ErrMissingArgument) ->
        onLeaderboard ParseLeaderboardArgs m body
        = publish (request_checkleaderboard m limit))
  /\ (forall ParseLoserboardArgs m body limit,
        ParseLoserboardArgs body = (limit, Some ErrMissingArgument) ->
        onLoserboard ParseLoserboardArgs m body
        = publish (request_checkloserboard m limit))
  /\ (forall ParseAnnounceArgs m body on err,
        ParseAnnounceArgs body = (on, Some err) ->
        published (onAnnounce ParseAnnounceArgs m body) = []
        /\ calls (onAnnounce ParseAnnounceArgs m body)
           = [MessageReactionAdd (Message.ChannelID m) (Message.ID m) question_mark;
              ChannelMessageSend (Message.ChannelID m) Bot.announce_usage]).
Proof.
  split; [|split; [|split]].
  - intros P m body. unfold onBumpKarma. by destruct (P body).
  - intros P m body limit H. unfold onLeaderboard. by rewrite H.
  - intros P m body limit H. unfold onLoserboard. by rewrite H.
  - intros P m body on err H. unfold onAnnounce. rewrite H. by destruct err.
Qed.

(** X17: the consumer makes at most one call per delivery, none for a
    delivery that fails to decode, and handles a stream delivery by
    delivery. *)
Theorem consumer_calls events :
  (length (consumer events) <= length events)%nat
  /\ (forall events', consumer (events ++ events') = (consumer events ++ consumer events')%list)
  /\ consumer (None :: events) = consumer events.
Proof.
  split; [|split].
  - unfold consumer. induction events as [|[e|] events IH]; simpl; [lia| |lia].
    rewrite length_app.
    assert (length (outcome_calls (handle e)) <= 1)%nat; [|lia].
    unfold handle.
    destruct (event.CheckedKarma e); [simpl; lia|].
    destruct (event.CheckedLeaderboard e); [simpl; lia|].
    destruct (event.CheckedLoserboard e); [simpl; lia|].
    destruct (event.ChangedAnnounce e); [simpl; lia|].
    destruct (event.ChangedKarma e); [|simpl; lia].
    destruct (negb _); simpl; lia.
  - intros events'. unfold consumer. apply flat_map_app.
  - reflexivity.
Qed.

#[local] Instance by_name_total : Total by_name.
Proof. intros a b. unfold by_name. apply String.le_total. Qed.

#[local] Instance by_name_trans : Transitive by_name.
Proof. intros a b c. unfold by_name. apply (transitivity (R := String.le)). Qed.

Lemma foldl_levels (l : list (string * Z)) : forall r,
  foldl (fun r kv => r +:+ fst kv +:+ " has " +:+ GoStrings.fmt_d (snd kv) +:+ " karma. ")
        r l
  = r +:+ foldr (fun kv acc => fst kv +:+ " has " +:+ GoStrings.fmt_d (snd kv)
                               +:+ " karma. " +:+ acc) "" l.
Proof.
  induction l as [|kv l IH]; intros r; simpl; [by rewrite append_nil_r|].
  rewrite IH. by rewrite !append_assoc.
Qed.

(** X18: the levels reply of the consumer lists every entry of the
    response map exactly once, in ascending order of name, each as
    [name has karma karma. ]. *)
Theorem templateLevels_sorted who :
  exists l,
    l ≡ₚ map_to_list who
    /\ StronglySorted (fun a b => String.le (fst a) (fst b)) l
    /\ NoDup l.*1
    /\ templateLevels who
       = foldr (fun kv acc => fst kv +:+ " has " +:+ GoStrings.fmt_d (snd kv)
                              +:+ " karma. " +:+ acc) "" l.
Proof.
  exists (merge_sort by_name (map_to_list who)).
  split; [apply merge_sort_Permutation|].
  split; [apply (StronglySorted_merge_sort by_name)|].
  split.
  - rewrite merge_sort_Permutation. apply NoDup_fst_map_to_list.
  - unfold templateLevels. by rewrite foldl_levels, append_nil_l.
Qed.

End BotMore.

(** ** The further properties on concrete messages *)

Module MoreExamples.

Import Discord Legacy Fixtures LegacyFacts LegacyMore BotMore.

Lemma fair_reverse : fair (fun m => reverse (map_to_list m)).
Proof. intros m. unfold range_order. apply reverse_Permutation. Qed.

(** [alice++ bob--], visited in one order and in the reverse order. *)
Lemma ModKarma_order_independent_witness :
  exists w1 w2,
    ModKarma (parsed [alice 1; {| Name := "bob"; Karma := -1 |}]) map_to_list
      (ctx "" "alice++ bob--") (world [] []) = Some (tt, w1)
    /\ ModKarma (parsed [alice 1; {| Name := "bob"; Karma := -1 |}])
         (fun m => reverse (map_to_list m))
         (ctx "" "alice++ bob--") (world [] []) = Some (tt, w2)
    /\ ents w1 = ents w2 /\ cfgs w1 = cfgs w2.
Proof.
  destruct (ModKarma_order_independent
              (parsed [alice 1; {| Name := "bob"; Karma := -1 |}])
              map_to_list (fun m => reverse (map_to_list m))
              (ctx "" "alice++ bob--") (world [] [])
              Examples.fair_map_to_list fair_reverse
              (Examples.fixture_guild "" "alice++ bob--")
              (Examples.no_empty_name [alice 1; {| Name := "bob"; Karma := -1 |}] eq_refl))
    as (w1 & w2 & l1 & l2 & H1 & H2 & He & Hc & _).
  exists w1, w2. split; [exact H1|]. split; [exact H2|]. split; [exact He | exact Hc].
Defined.

(** [alice++++ alice----] on a ledger that holds a row. *)
Lemma ModKarma_all_zero_witness :
  ModKarma (parsed [alice 2; alice (-2)]) map_to_list
    (ctx "" "alice++++ alice----") (world [("g1", "alice", 7)] [])
  = Some (tt, world [("g1", "alice", 7)] []).
Proof.
  apply ModKarma_all_zero; [exact Examples.fair_map_to_list|].
  intros n d. rewrite MarshalFacts.marshalSubjects_lookup.
  destruct (decide _); [|done]. intros [= <-]. unfold parsed, net_sum. simpl.
  destruct (decide ("alice" = n)); reflexivity.
Defined.

(** The first [alice++] of a guild. *)
Lemma ModKarma_config_witness :
  exists w',
    ModKarma (parsed [alice 1]) map_to_list (ctx "" "alice++") (world [] [])
    = Some (tt, w')
    /\ cfgs w' !! "g1" = Some false
    /\ calls w' = [ChannelMessageSend "c1" "alice has 1 karma."].
Proof.
  destruct (ModKarma_config (parsed [alice 1]) map_to_list (ctx "" "alice++")
              (world [] []) Examples.fair_map_to_list
              (Examples.fixture_guild "" "alice++"))
    as (w' & Hrun & Hcfg & _ & _).
  - exists "alice", 1. split; [reflexivity | lia].
  - exists w'. split; [exact Hrun|]. split; [exact Hcfg|].
    assert (Hev : ModKarma (parsed [alice 1]) map_to_list (ctx "" "alice++") (world [] [])
                  = Some (tt, {| ents := {[("g1", "alice") := 1]};
                                 cfgs := {["g1" := false]};
                                 writes := [CreateEntity "g1" "alice";
                                            SaveEntity "g1" "alice" 1;
                                            CreateConfig "g1"];
                                 calls := [ChannelMessageSend "c1" "alice has 1 karma."] |}))
      by (by vm_compute).
    rewrite Hev in Hrun. by injection Hrun as <-.
Defined.

(** [alice++] then [alice--] on a ledger where alice stands at 5. *)
Lemma ModKarma_accumulates_witness :
  exists w1 w2,
    ModKarma (fun s => if String.eqb s "alice++" then [alice 1] else [alice (-1)])
      map_to_list (ctx "" "alice++") (world [("g1", "alice", 5)] []) = Some (tt, w1)
    /\ ModKarma (fun s => if String.eqb s "alice++" then [alice 1] else [alice (-1)])
         map_to_list (ctx "" "alice--") w1 = Some (tt, w2)
    /\ ents w2 !! ("g1", "alice") = Some 5.
Proof.
  destruct (ModKarma_accumulates
              (fun s => if String.eqb s "alice++" then [alice 1] else [alice (-1)])
              map_to_list map_to_list (ctx "" "alice++") (ctx "" "alice--")
              (world [("g1", "alice", 5)] []) "alice" 1 (-1)
              Examples.fair_map_to_list Examples.fair_map_to_list
              (Examples.fixture_guild "" "alice++")
              (Examples.no_empty_name [alice 1] eq_refl)
              (Examples.no_empty_name [alice (-1)] eq_refl) eq_refl)
    as (w1 & w2 & H1 & H2 & _ & Hback).
  - intros k Hk. vm_compute in Hk. injection Hk as <-.
    split; [lia | unfold GoInt.in_range, GoInt.min_int, GoInt.max_int; lia].
  - reflexivity.
  - reflexivity.
  - exists w1, w2. split; [exact H1|]. split; [exact H2|].
    exact (Hback eq_refl).
Defined.

(** [alice++] on a ledger where alice stands at -1, then a query for
    alice: 0 is announced and 0 is reported. *)
Lemma CheckKarma_after_ModKarma_witness :
  exists w1 (announced reported : list (string * Z)),
    ModKarma (fun s => if String.eqb s "alice++" then [alice 1] else [alice 0])
      map_to_list (ctx "" "alice++") (world [("g1", "alice", -1)] []) = Some (tt, w1)
    /\ CheckKarma (fun s => if String.eqb s "alice++" then [alice 1] else [alice 0])
         map_to_list (ctx "@bot karma" "@bot karma alice") w1
       = Some (tt, {| ents := ents w1; cfgs := cfgs w1; writes := writes w1;
                      calls := (calls w1 ++
                        [ChannelMessageSend "c1" (render_lines "" reported)])%list |})
    /\ ("alice", 0) ∈ announced /\ ("alice", 0) ∈ reported.
Proof.
  destruct (CheckKarma_after_ModKarma
              (fun s => if String.eqb s "alice++" then [alice 1] else [alice 0])
              map_to_list map_to_list (ctx "" "alice++")
              (ctx "@bot karma" "@bot karma alice") " alice"
              (world [("g1", "alice", -1)] []) "alice" 1
              Examples.fair_map_to_list Examples.fair_map_to_list
              (Examples.fixture_guild "" "alice++")
              (Examples.no_empty_name [alice 1] eq_refl)
              (Examples.no_empty_name [alice 0] eq_refl) eq_refl eq_refl eq_refl)
    as (w1 & announced & reported & Hrun & _ & Hcheck & Ha & Hr).
  - lia.
  - apply list_elem_of_here.
  - exists w1, announced, reported.
    split; [exact Hrun|]. split; [exact Hcheck|]. split; [exact Ha | exact Hr].
Defined.

(** [announce on], then [announce off]. *)
Lemma SetAnnounce_twice_witness :
  exists w1 w2,
    SetAnnounce (ctx "@bot announce " "@bot announce on") (world [] []) = Some (tt, w1)
    /\ SetAnnounce (ctx "@bot announce " "@bot announce off") w1 = Some (tt, w2)
    /\ cfgs w2 = <["g1" := true]> ∅
    /\ ents w2 = ∅.
Proof.
  destruct (SetAnnounce_twice (ctx "@bot announce " "@bot announce on")
              (ctx "@bot announce " "@bot announce off") "on" "off" true false
              (world [] []) (Examples.fixture_guild "@bot announce " "@bot announce on")
              eq_refl eq_refl eq_refl eq_refl eq_refl)
    as (w1 & w2 & H1 & H2 & Hc & He & _).
  exists w1, w2. split; [exact H1|]. split; [exact H2|]. split; [exact Hc | exact He].
Defined.

(** [announce maybe]. *)
Lemma SetAnnounce_no_setting_witness :
  SetAnnounce (ctx "@bot announce " "@bot announce maybe") (world [] [])
  = Some (tt, {| ents := ∅; cfgs := ∅; writes := [];
                 calls := [ChannelMessageSendReply "c1" Legacy.announce_usage] |}).
Proof.
  apply (SetAnnounce_no_setting (ctx "@bot announce " "@bot announce maybe") "maybe"
           (world [] [])); reflexivity.
Defined.

(** A header that the content does not even hold. *)
Lemma header_past_content_witness :
  CheckKarma (parsed []) map_to_list (ctx "@bot karma" "@bot") (world [] []) = None
  /\ SetAnnounce (ctx "@bot karma" "@bot") (world [] []) = None
  /\ Legacy.Bot (fun _ _ _ _ => []) (ctx "@bot karma" "@bot") (world [] []) = None
  /\ Top (fun _ _ _ _ => []) (ctx "@bot karma" "@bot") (world [] []) = None.
Proof.
  apply (header_past_content (parsed []) (fun _ _ _ _ => []) map_to_list
           (ctx "@bot karma" "@bot") (world [] [])).
  simpl. lia.
Defined.

(** A query with no name after the keyword. *)
Lemma CheckKarma_no_names_witness :
  CheckKarma (parsed []) map_to_list (ctx "@bot karma" "@bot karma") (world [] [])
  = Some (tt, {| ents := ∅; cfgs := ∅; writes := [];
                 calls := [ChannelMessageSend "c1" ""] |}).
Proof.
  apply (CheckKarma_no_names (parsed []) map_to_list (ctx "@bot karma" "@bot karma") ""
           (world [] [])); [reflexivity | exact Examples.fair_map_to_list | reflexivity].
Defined.

(** A message of the bot itself (author [u1]). *)
Lemma publisher_ignores_witness :
  Bot.onMessageCreate popple.Route (fun _ => (true, None)) (fun _ => ([], None))
    popple.ParseKarmaArgs popple.ParseLeaderboardArgs popple.ParseLoserboardArgs
    "u1" "popple" false (msg "@popple karma alice")
  = Bot.nothing.
Proof.
  apply publisher_ignores. left. reflexivity.
Defined.

End MoreExamples.
